(* ===== verification/_CoqProject ===== *)
-Q . S2P
Spec2Rocq.v
QtTypes.v
Runtime.v
PluginState.v
SettingsPages.v
Options.v
UiFlags.v
Hooks.v
RootWindow.v
Plugin.v
Members.v
QmlBinding.v
Hazards.v
Contract.v
Sessions.v
Engines.v
Ordering.v
