(* ===== verification/Spec2Rocq.v ===== *)
(** * QGroundControl core plugin (src/src/api/QGCCorePlugin.cc): a verification development

    ** The program

    [QGCCorePlugin] is the default implementation of QGroundControl's
    core-plugin interface.  A private object [QGCCorePlugin_p] owns the
    settings pages ([QGCSettings], one pointer per page) and the default
    [QGCOptions], allocated lazily by [settingsPages()] (lines 100-135) and
    [options()] (lines 142-148) and deleted by its destructor (lines
    42-62), which the plugin's destructor runs (lines 77-82).
    [settingsPages()] returns its [QVariantList] by reference, so clients
    share it with the plugin.  Two notifying flags ([setShowTouchAreas],
    [setShowAdvancedUI], lines 183-197) assign and emit on change.  A set
    of hooks answers constants or adjusts their argument (lines 137-217).
    [setToolbox] (lines 92-98) pins the plugin in C++ ownership and
    registers two QML types, and [createRootWindow] (lines 219-227)
    allocates a QML engine, configures it and loads the main window.

    ** The files

    - [Spec2Rocq] (this file) is the prelude: a state-and-error monad
      [stM] ([Ok] or [UB] for undefined behaviour), its notations in
      [qgc_scope], the hint databases [qgc] and [qgc_rw], and generic
      lemmas on the monad, lists and options.
    - [QtTypes] holds the Qt and QGC value types the file touches, with
      only their used fields; [tr] is the class [Translator].
    - [Runtime] is the C++/Qt run time: the free store as a [gmap] from
      addresses to objects, with [cpp_new] at the next address and
      [cpp_delete] undefined on a dead pointer; the signal log, the QML
      type registry and the ownership table.  Invariant: [store_wf].
    - [PluginState] has [QGCCorePlugin_p] and [QGCCorePlugin] as records,
      with their constructors and destructors, and the ownership invariant
      [priv_wf].  It proves that the destructor frees exactly the owned
      pointers, and that a run without UB implies they were distinct and
      live.
    - [SettingsPages], [Options], [UiFlags], [Hooks] and [RootWindow] hold
      one method or a group of methods each, written in the monad as the
      source writes them, with their functional theorems.  [UiFlags]
      proves its run theorems against the typeclass [NotifyingFlag], which
      both setters implement.
    - [Plugin] turns a client's calls ([Call], [exec]) into a step relation
      [reachable] from the constructor.  It proves the invariant
      [plugin_inv] by rule induction.
    - [Members] follows the pointer members over whole runs, using one
      case analysis of a step ([exec_shape]).  It proves a typing
      invariant (each member points to the descriptor it was made with),
      liveness (two calls fill every member, which then never changes)
      and a bound on the plugin's own allocations.  From the invariant
      and the typing it proves that destroying the plugin after any calls
      is free of UB and leaves exactly the objects that existed before
      the plugin and the engines ([destroy_after_any_run]).
    - [QmlBinding] composes the plugin with a QML binding that follows
      the NOTIFY signals, and proves that the binding stays equal to the
      flags.
    - [Hazards] proves that a client's [delete] of a pointer the plugin
      owns makes the plugin's destruction undefined behaviour.
    - [Contract] is the spec's contract as a relational abstract machine
      [astep].  It proves a simulation [refinement] of it by [exec].
    - [Sessions] lifts the simulation to whole sessions of calls.  It
      concludes that in every session from construction, the pages are
      the defaults in display order and [options()] always returns one
      instance.
    - [Engines] follows the engines [createRootWindow] hands out over a
      session.  They are distinct and fresh, and they outlive the plugin.
    - [Ordering] is about the order of calls.  A flag set survives any
      calls that set no flag and can be moved past them; nothing a client
      can see changes, signals included.  The two setters commute with each
      other only up to the order of their notifications, which follows
      the order of the calls.

    ** Modelling choices

    Pointers are addresses ([N]); NULL is [None].  Build macros
    ([QT_DEBUG], [__mobile__]) are a [BuildConfig] argument.  [_p] is kept
    inside the plugin record: it is allocated by the constructor, never
    NULL and never shared.  Every method is a total function in the
    monad, so no fuel is needed.  Sequences of calls are explicit lists,
    and their length is unbounded in every theorem.  The QML side of the
    NOTIFY signals is a fold over the signal log.  Its behaviour comes
    from Qt's documented contract, since that code is not in this
    repository.

    ** Not modelled

    - Qt internals: the QML engine's loading of the main window, QObject
      parent trees and translation catalogues.
    - The [QGCTool] base beyond the toolbox pointer.
    - The joystick manager and [AppMessages]: only the handles
      [createRootWindow] reads are kept.
    - [QUrl::fromUserInput]: it is applied only to qrc: literals and is
      kept as the literal. *)

From stdpp Require Import base gmap strings list.

Declare Scope qgc_scope.
Delimit Scope qgc_scope with qgc.

(** ** Undefined behaviour of the C++ runtime that the model can reach *)

Inductive ub :=
  | UB_delete_dangling (l : N)   (** [delete p] where [p] is not a live object *)
  | UB_dangling_access (l : N).  (** [p->m(...)] where [p] is not a live object *)

#[export] Instance ub_eq_dec : EqDecision ub.
Proof. solve_decision. Defined.

(** The result of running a C++ fragment: a value or undefined behaviour. *)
Inductive res (A : Type) :=
  | Ok (a : A)
  | UB (u : ub).
Arguments Ok {A} a.
Arguments UB {A} u.

Lemma Ok_inj {A} (x y : A) : Ok x = Ok y -> x = y.
Proof. by intros [= ->]. Qed.

(** ** The state and error monad *)

Definition stM (S A : Type) := S -> res (A * S).

Definition ret {S A} (a : A) : stM S A := fun s => Ok (a, s).

Definition bind {S A B} (m : stM S A) (k : A -> stM S B) : stM S B :=
  fun s => match m s with
           | Ok (a, s') => k a s'
           | UB u => UB u
           end.

Definition gets {S A} (f : S -> A) : stM S A := fun s => Ok (f s, s).
Definition modify {S} (f : S -> S) : stM S unit := fun s => Ok (tt, f s).
Definition raise {S A} (u : ub) : stM S A := fun _ => UB u.

Notation "'do' x <- c ; k" := (bind c (fun x => k))
  (at level 100, x name, c at next level, k at level 200, right associativity) : qgc_scope.
Notation "c ;; k" := (bind c (fun _ => k))
  (at level 100, k at level 200, right associativity) : qgc_scope.

Open Scope qgc_scope.

(** [when b m]: the C++ statement [if (b) m;]. *)
Definition when {S} (b : bool) (m : stM S unit) : stM S unit :=
  if b then m else ret tt.

(** [for_each f l]: the statements [f x1; f x2; ...], in that order. *)
Fixpoint for_each {S A} (f : A -> stM S unit) (l : list A) : stM S unit :=
  match l with
  | [] => ret tt
  | x :: l' => f x ;; for_each f l'
  end.

(** ** Monad laws, pointwise in the state *)

Create HintDb qgc.
Create Rewrite HintDb qgc_rw.

Lemma bind_ret_l {S A B} (a : A) (k : A -> stM S B) s :
  bind (ret a) k s = k a s.
Proof. reflexivity. Qed.

Lemma bind_ret_r {S A} (m : stM S A) s : bind m ret s = m s.
Proof. unfold bind, ret. by destruct (m s) as [[a s']|u]. Qed.

Lemma bind_assoc {S A B C} (m : stM S A) (k : A -> stM S B) (k' : B -> stM S C) s :
  bind (bind m k) k' s = bind m (fun a => bind (k a) k') s.
Proof. unfold bind. by destruct (m s) as [[a s']|u]. Qed.

Lemma bind_Ok {S A B} (m : stM S A) (k : A -> stM S B) s a s' :
  m s = Ok (a, s') -> bind m k s = k a s'.
Proof. unfold bind. by intros ->. Qed.

Lemma bind_UB {S A B} (m : stM S A) (k : A -> stM S B) s u :
  m s = UB u -> bind m k s = UB u.
Proof. unfold bind. by intros ->. Qed.

Lemma bind_ret_tt {S} (m : stM S unit) s : bind m (fun _ => ret tt) s = m s.
Proof. unfold bind, ret. by destruct (m s) as [[[] s']|u]. Qed.

#[export] Hint Rewrite @bind_ret_l @bind_ret_r @bind_ret_tt @bind_assoc : qgc_rw.

Lemma bind_ext {S A B} (m : stM S A) (k k' : A -> stM S B) s :
  (forall a s', k a s' = k' a s') -> bind m k s = bind m k' s.
Proof. intros H. unfold bind. destruct (m s) as [[a s']|u]; auto. Qed.

Lemma for_each_app {S A} (f : A -> stM S unit) l1 l2 s :
  for_each f (l1 ++ l2) s = bind (for_each f l1) (fun _ => for_each f l2) s.
Proof.
  revert s. induction l1 as [|x l1 IH]; intros s; simpl; [done|].
  rewrite bind_assoc. apply bind_ext. intros _ s'. apply IH.
Qed.

(** ** Lists and options *)

(** The non-null pointers among a list of nullable pointers. *)
Definition non_null {A} (l : list (option A)) : list A := omap id l.

Lemma non_null_app {A} (l1 l2 : list (option A)) :
  non_null (l1 ++ l2) = non_null l1 ++ non_null l2.
Proof. apply omap_app. Qed.

Lemma elem_of_non_null {A} (x : A) (l : list (option A)) :
  x ∈ non_null l <-> Some x ∈ l.
Proof.
  unfold non_null. rewrite list_elem_of_omap. split.
  - intros (y & Hy & Hxy). simpl in Hxy. by subst.
  - intros H. by exists (Some x).
Qed.

#[export] Hint Rewrite @non_null_app : qgc_rw.

(** The Standard Library's [nth_error] is stdpp's list lookup. *)
Lemma nth_error_lookup {A} (l : list A) i : nth_error l i = l !! i.
Proof. revert i. induction l as [|x l IH]; intros [|i]; simpl; auto. Qed.

(** ** Tactics *)

(** Unfold the monad combinators of a goal about a concrete run. *)
Ltac run_M := unfold bind, ret, gets, modify, raise, when in *; simpl in *.

(** Prove a decidable proposition about closed terms by evaluating its
    decision procedure. *)
Ltac vm_decide := apply (bool_decide_unpack _); vm_compute; exact I.

(** Case analysis on a boolean test [x =? y] of a decidable type. *)
Ltac decide_cases := repeat case_decide; simplify_eq; try done.
