(* ===== verification/QtTypes.v ===== *)
(** Value types of Qt and of QGroundControl that QGCCorePlugin.cc builds,
    reads or hands to the UI engine: [QUrl], [QVariant], [QStringList],
    [QGCSettings] (a settings-page descriptor), [QGCOptions],
    [FactMetaData], [QGCPalette::PaletteColorInfo_t], the signals of the
    plugin, the QML type registrations and the calls made on a
    [QQmlApplicationEngine].  None of these types is defined under src/:
    they are modelled from the spec and from the way the plugin uses them,
    with only the fields the plugin touches.  [tr] (Qt's translation
    lookup) is an interface, the class [Translator]. *)

From stdpp Require Import base gmap strings list numbers.
From S2P Require Import Spec2Rocq.

Definition QString := string.

(** [QObject::tr]: the translation catalog is loaded at run time, so the
    model is parametric in it. *)
Class Translator := { tr : QString -> QString }.

(** The catalog that leaves every string untranslated (an English build). *)
Definition untranslated : Translator := {| tr := fun s => s |}.

(** ** URLs *)

Record QUrl := mkQUrl { url_text : string }.

#[export] Instance QUrl_eq_dec : EqDecision QUrl.
Proof. solve_decision. Defined.

(** [QUrl()]: the empty URL, the default icon of a [QGCSettings]. *)
Definition QUrl_empty : QUrl := mkQUrl "".

(** [QUrl::fromUserInput(s)]: an input that already carries a scheme, as
    every ["qrc:/..."] literal of the plugin does, is kept as it is. *)
Definition fromUserInput (s : string) : QUrl := mkQUrl s.

(** ** Variants *)

Inductive QVariant :=
  | QV_invalid                  (** [QVariant()] *)
  | QV_int (z : Z)              (** [QVariant(int)] *)
  | QV_bool (b : bool)          (** [QVariant(bool)] *)
  | QV_settings (l : N)         (** [QVariant::fromValue((QGCSettings* )p)] *)
  | QV_qobject (l : N).         (** a [QObject*] set as a context property *)

#[export] Instance QVariant_eq_dec : EqDecision QVariant.
Proof. solve_decision. Defined.

Definition QVariantList := list QVariant.
Definition QStringList := list QString.

(** [list << s]: append at the end. *)
Definition qsl_append (l : QStringList) (s : QString) : QStringList := l ++ [s].

(** ** Settings-page descriptors and options *)

(** [QGCSettings(title, url, icon = QUrl())]. *)
Record QGCSettings := mkQGCSettings {
  qs_title : QString;
  qs_url : QUrl;
  qs_icon : QUrl
}.

#[export] Instance QGCSettings_eq_dec : EqDecision QGCSettings.
Proof. solve_decision. Defined.

(** [new QGCOptions()]: the default options.  The plugin never reads or
    writes a field of it; it only owns the one instance. *)
Inductive QGCOptions := QGCOptions_default.

#[export] Instance QGCOptions_eq_dec : EqDecision QGCOptions.
Proof. solve_decision. Defined.

(** ** Fact metadata *)

Record FactMetaData := mkFactMetaData {
  fmd_name : QString;
  fmd_rawDefaultValue : QVariant
}.

#[export] Instance FactMetaData_eq_dec : EqDecision FactMetaData.
Proof. solve_decision. Defined.

Definition name (m : FactMetaData) : QString := fmd_name m.

Definition setRawDefaultValue (v : QVariant) (m : FactMetaData) : FactMetaData :=
  {| fmd_name := fmd_name m; fmd_rawDefaultValue := v |}.

(** [AppSettings::indoorPaletteName] and [AppSettings::telemetrySaveName]. *)
Definition indoorPaletteName : QString := "indoorPalette".
Definition telemetrySaveName : QString := "telemetrySave".

(** [QGCPalette::PaletteColorInfo_t]: a colour per theme and enabled state. *)
Record PaletteColorInfo_t := mkPaletteColorInfo {
  pc_light_disabled : string;
  pc_light_enabled : string;
  pc_dark_disabled : string;
  pc_dark_enabled : string
}.

(** ** Signals, QML registrations and engine calls *)

(** The NOTIFY signals of the plugin's two Q_PROPERTYs. *)
Inductive Signal :=
  | showTouchAreasChanged (b : bool)
  | showAdvancedUIChanged (b : bool).

#[export] Instance Signal_eq_dec : EqDecision Signal.
Proof. solve_decision. Defined.

(** [qmlRegisterUncreatableType<T>(uri, major, minor, qmlName, reason)]. *)
Record QmlTypeReg := mkQmlTypeReg {
  qr_cppType : string;
  qr_uri : string;
  qr_major : nat;
  qr_minor : nat;
  qr_qmlName : string;
  qr_reason : string
}.

#[export] Instance QmlTypeReg_eq_dec : EqDecision QmlTypeReg.
Proof. solve_decision. Defined.

Inductive ObjectOwnership := CppOwnership | JavaScriptOwnership.

#[export] Instance ObjectOwnership_eq_dec : EqDecision ObjectOwnership.
Proof. solve_decision. Defined.

(** The calls made on a [QQmlApplicationEngine], in the order made. *)
Inductive EngineCall :=
  | addImportPath (path : string)
  | setContextProperty (prop : string) (v : QVariant)
  | load (u : QUrl).

#[export] Instance EngineCall_eq_dec : EqDecision EngineCall.
Proof. solve_decision. Defined.

(** A [QQmlApplicationEngine]: its QObject parent and the calls made on it. *)
Record QQmlApplicationEngine := mkEngine {
  eng_parent : option N;
  eng_calls : list EngineCall
}.

#[export] Instance QQmlApplicationEngine_eq_dec : EqDecision QQmlApplicationEngine.
Proof. solve_decision. Defined.

(** ** Build configuration *)

(** The preprocessor symbols the file tests: [QT_DEBUG] (debug build) and
    [__mobile__] (Android and iOS builds). *)
Record BuildConfig := mkBuildConfig {
  qt_debug : bool;
  mobile : bool
}.
