(* ===== verification/Runtime.v ===== *)
(** The C++ and Qt run time the plugin's methods act on: the free store
    ([new] and [delete] of the objects the plugin allocates), the queue of
    emitted signals, the QML type registry and the ownership table of the
    QML engine.  It is the state [Store] of the monad [M] in which every
    method of QGCCorePlugin.cc is written.

    [new T(...)] returns the next address, so that a fresh object never
    aliases a live one (the invariant [store_wf]); [delete p] of a pointer
    that is not live is undefined behaviour, the value [UB] of the monad.
    The lemmas of this file are the ones the destructors' proofs need:
    deleting a list of distinct live objects succeeds and frees exactly
    them, and deleting one twice is undefined behaviour. *)

From stdpp Require Import base gmap strings list numbers.
From S2P Require Import Spec2Rocq QtTypes.

(** The objects of the free store the plugin creates. *)
Inductive Obj :=
  | OSettings (s : QGCSettings)
  | OOptions (o : QGCOptions)
  | OEngine (e : QQmlApplicationEngine).

#[export] Instance Obj_eq_dec : EqDecision Obj.
Proof. solve_decision. Defined.

Record Store := mkStore {
  st_heap : gmap N Obj;
  st_next : N;
  st_signals : list Signal;
  st_qmlTypes : list QmlTypeReg;
  st_ownership : gmap N ObjectOwnership;
  st_joystickManager : N;      (** [qgcApp()->toolbox()->joystickManager()] *)
  st_debugMessageModel : N     (** [AppMessages::getModel()] *)
}.

Definition M := stM Store.

Definition with_heap (h : gmap N Obj) (n : N) (s : Store) : Store :=
  mkStore h n (st_signals s) (st_qmlTypes s) (st_ownership s)
          (st_joystickManager s) (st_debugMessageModel s).

(** ** new, delete, access through a pointer *)

(** [new T(args)], where [o] is the constructed object. *)
Definition cpp_new (o : Obj) : M N :=
  fun s => let l := st_next s in
           Ok (l, with_heap (<[l := o]> (st_heap s)) (l + 1)%N s).

(** [delete p]. *)
Definition cpp_delete (l : N) : M unit :=
  fun s => match st_heap s !! l with
           | Some _ => Ok (tt, with_heap (delete l (st_heap s)) (st_next s) s)
           | None => UB (UB_delete_dangling l)
           end.

(** [if (p) delete p;] *)
Definition delete_if (p : option N) : M unit :=
  match p with
  | Some l => cpp_delete l
  | None => ret tt
  end.

(** [p->f(...)] on an engine, appending the call [c] to its history. *)
Definition engine_call (l : N) (c : EngineCall) : M unit :=
  fun s => match st_heap s !! l with
           | Some (OEngine e) =>
               Ok (tt, with_heap (<[l := OEngine (mkEngine (eng_parent e)
                                                  (eng_calls e ++ [c]))]> (st_heap s))
                                 (st_next s) s)
           | _ => UB (UB_dangling_access l)
           end.

(** [emit sig(...)]. *)
Definition emit (sg : Signal) : M unit :=
  modify (fun s => mkStore (st_heap s) (st_next s) (st_signals s ++ [sg])
                           (st_qmlTypes s) (st_ownership s)
                           (st_joystickManager s) (st_debugMessageModel s)).

(** [qmlRegisterUncreatableType<T>(...)]. *)
Definition qmlRegister (r : QmlTypeReg) : M unit :=
  modify (fun s => mkStore (st_heap s) (st_next s) (st_signals s)
                           (st_qmlTypes s ++ [r]) (st_ownership s)
                           (st_joystickManager s) (st_debugMessageModel s)).

(** [QQmlEngine::setObjectOwnership(obj, o)]. *)
Definition setObjectOwnership (obj : N) (o : ObjectOwnership) : M unit :=
  modify (fun s => mkStore (st_heap s) (st_next s) (st_signals s)
                           (st_qmlTypes s) (<[obj := o]> (st_ownership s))
                           (st_joystickManager s) (st_debugMessageModel s)).

(** ** The invariant of the free store: every live address was handed out *)

Definition store_wf (s : Store) : Prop :=
  map_Forall (fun l _ => (l < st_next s)%N) (st_heap s).

#[export] Instance store_wf_dec s : Decision (store_wf s).
Proof. unfold store_wf. apply _. Defined.

(** The heap after deleting [ls] one after the other. *)
Definition delete_seq (ls : list N) (h : gmap N Obj) : gmap N Obj :=
  foldl (fun h l => delete l h) h ls.

Definition all_live (ls : list N) (h : gmap N Obj) : Prop :=
  Forall (fun l => is_Some (h !! l)) ls.

#[export] Instance all_live_dec ls h : Decision (all_live ls h).
Proof. unfold all_live. apply _. Defined.

(** A store with nothing allocated, and the handles of the application
    singletons the plugin hands to QML at two addresses of their own. *)
Definition empty_store : Store := mkStore ∅ 0 [] [] ∅ 1000 1001.

Lemma empty_store_wf : store_wf empty_store.
Proof. vm_decide. Qed.

(** ** Lemmas *)

Lemma with_heap_with_heap h n h' n' s :
  with_heap h n (with_heap h' n' s) = with_heap h n s.
Proof. reflexivity. Qed.

Lemma with_heap_id s : with_heap (st_heap s) (st_next s) s = s.
Proof. by destruct s. Qed.

#[export] Hint Rewrite with_heap_with_heap with_heap_id : qgc_rw.

(** [new] never returns an address that is live. *)
Lemma cpp_new_fresh s : store_wf s -> st_heap s !! st_next s = None.
Proof.
  intros Hwf. destruct (st_heap s !! st_next s) eqn:E; [|done].
  specialize (Hwf _ _ E). simpl in Hwf. lia.
Qed.

Lemma cpp_new_wf o s : store_wf s -> store_wf (with_heap (<[st_next s := o]> (st_heap s)) (st_next s + 1)%N s).
Proof.
  intros Hwf. apply map_Forall_insert_2; simpl; [lia|].
  eapply map_Forall_impl; [exact Hwf|]. simpl. intros. lia.
Qed.

Lemma delete_seq_wf ls s :
  store_wf s -> store_wf (with_heap (delete_seq ls (st_heap s)) (st_next s) s).
Proof.
  unfold store_wf, delete_seq; simpl. generalize (st_heap s). intros h.
  revert h. induction ls as [|l ls IH]; intros h Hwf; simpl; [done|].
  apply IH. by apply map_Forall_delete.
Qed.

Lemma lookup_delete_seq ls h l :
  delete_seq ls h !! l = if decide (l ∈ ls) then None else h !! l.
Proof.
  unfold delete_seq. revert h. induction ls as [|l' ls IH]; intros h; cbn [foldl].
  - case_decide; set_solver.
  - rewrite IH, lookup_delete. repeat case_decide; try done; set_solver.
Qed.

(** Deleting the objects [ls] one after the other succeeds exactly when
    they are distinct and live, and then frees exactly them. *)
Lemma for_each_delete_Ok ls s :
  NoDup ls -> all_live ls (st_heap s) ->
  for_each cpp_delete ls s = Ok (tt, with_heap (delete_seq ls (st_heap s)) (st_next s) s).
Proof.
  revert s. induction ls as [|l ls IH]; intros s Hnd Hlive; simpl.
  - by rewrite with_heap_id.
  - inversion_clear Hnd as [|? ? Hl Hnd']. inversion_clear Hlive as [|? ? [o Ho] Hlive'].
    unfold bind at 1, cpp_delete at 1. rewrite Ho. rewrite IH; [done|done|].
    unfold all_live in *. rewrite Forall_forall in *. intros l' Hin. simpl.
    rewrite lookup_delete_ne; [by apply Hlive'|]. intros ->. by apply Hl, list_elem_of_In.
Qed.

Lemma for_each_delete_inv ls s a s' :
  for_each cpp_delete ls s = Ok (a, s') ->
  NoDup ls /\ all_live ls (st_heap s).
Proof.
  revert s. induction ls as [|l ls IH]; intros s H; simpl in H.
  - split; constructor.
  - unfold bind at 1, cpp_delete at 1 in H. destruct (st_heap s !! l) as [o|] eqn:Ho; [|done].
    apply IH in H as [Hnd Hlive]. simpl in Hlive. split.
    + constructor; [|done]. intros Hin. unfold all_live in Hlive. rewrite Forall_forall in Hlive.
      apply list_elem_of_In in Hin.
      destruct (Hlive l Hin) as [? Hx]. by rewrite lookup_delete_eq in Hx.
    + constructor; [by eexists|]. unfold all_live in Hlive. rewrite Forall_forall in *.
      intros l' Hin. destruct (Hlive l' Hin) as [x Hx].
      apply lookup_delete_Some in Hx as [_ Hx]. by eexists.
Qed.

(** Deleting distinct objects one of which is already dead is undefined
    behaviour at that object, when the others are live. *)
Lemma for_each_delete_dangling ls s l :
  NoDup ls -> l ∈ ls -> st_heap s !! l = None ->
  (forall x, x ∈ ls -> x <> l -> is_Some (st_heap s !! x)) ->
  for_each cpp_delete ls s = UB (UB_delete_dangling l).
Proof.
  revert s. induction ls as [|x ls IH]; intros s Hnd Hl Hdead Hlive; [by apply elem_of_nil in Hl|].
  inversion_clear Hnd as [|? ? Hx Hnd']. cbn [for_each]. unfold bind at 1, cpp_delete at 1.
  destruct (decide (x = l)) as [->|Hne]; [by rewrite Hdead|].
  destruct (Hlive x ltac:(set_solver) Hne) as [o ->].
  apply elem_of_cons in Hl as [->|Hl]; [done|]. apply IH; [done|done| |].
  - simpl. by rewrite lookup_delete_ne.
  - intros y Hy Hyl. simpl. rewrite lookup_delete_ne; [apply Hlive; [set_solver|done]|].
    intros ->. by apply Hx, list_elem_of_In.
Qed.

(** [if (p) delete p;] followed by the deletions of [l]. *)
Lemma for_each_delete_non_null_cons (o : option N) (l : list (option N)) :
  for_each cpp_delete (non_null (o :: l)) = (delete_if o ;; for_each cpp_delete (non_null l)).
Proof. by destruct o. Qed.

(** ** Runs of [new]: [k] allocations from address [n] *)

(** The addresses [n], [n+1], ..., [n+k-1] that [k] successive [new]s return. *)
Fixpoint addrs (n : N) (k : nat) : list N :=
  match k with
  | O => []
  | S k => n :: addrs (n + 1)%N k
  end.

(** The heap after storing [xs] at [n], [n+1], ... *)
Fixpoint alloc_seq (n : N) (xs : list Obj) (h : gmap N Obj) : gmap N Obj :=
  match xs with
  | [] => h
  | x :: xs => alloc_seq (n + 1)%N xs (<[n := x]> h)
  end.

Lemma elem_of_addrs a n k : a ∈ addrs n k <-> (n <= a < n + N.of_nat k)%N.
Proof.
  revert n. induction k as [|k IH]; intros n; simpl.
  - rewrite elem_of_nil. lia.
  - rewrite elem_of_cons, IH. lia.
Qed.

Lemma NoDup_addrs n k : NoDup (addrs n k).
Proof.
  revert n. induction k as [|k IH]; intros n; simpl; constructor; [|apply IH].
  rewrite elem_of_addrs. lia.
Qed.

Lemma length_addrs n k : length (addrs n k) = k.
Proof. revert n. induction k; intros; simpl; auto. Qed.

Lemma lookup_alloc_seq_out n xs h a :
  (a < n \/ n + N.of_nat (length xs) <= a)%N -> alloc_seq n xs h !! a = h !! a.
Proof.
  revert n h. induction xs as [|x xs IH]; intros n h Ha; simpl in *; [done|].
  rewrite IH by lia. apply lookup_insert_ne. lia.
Qed.

Lemma lookup_alloc_seq_addr n x xs h :
  alloc_seq n (x :: xs) h !! n = Some x.
Proof. simpl. rewrite lookup_alloc_seq_out by lia. apply lookup_insert_eq. Qed.

(** Whatever was live stays live, with the same contents, when the
    allocations start at a fresh address. *)
Lemma alloc_seq_preserves s xs a o :
  store_wf s -> st_heap s !! a = Some o ->
  alloc_seq (st_next s) xs (st_heap s) !! a = Some o.
Proof. intros Hwf Ha. rewrite lookup_alloc_seq_out; [done|]. left. exact (Hwf _ _ Ha). Qed.

Lemma alloc_seq_wf s xs :
  store_wf s ->
  store_wf (with_heap (alloc_seq (st_next s) xs (st_heap s))
                      (st_next s + N.of_nat (length xs))%N s).
Proof.
  unfold store_wf; simpl. generalize (st_heap s) (st_next s). clear s.
  intros h n. revert h n. induction xs as [|x xs IH]; intros h n Hwf; simpl.
  - eapply map_Forall_impl; [exact Hwf|]. simpl. intros. lia.
  - replace (n + N.of_nat (S (length xs)))%N
      with (n + 1 + N.of_nat (length xs))%N by lia.
    apply IH. apply map_Forall_insert_2; [lia|].
    eapply map_Forall_impl; [exact Hwf|]. simpl. intros. lia.
Qed.

(** A step that keeps the heap and the next address keeps [store_wf]. *)
Lemma store_wf_same s s' :
  st_heap s' = st_heap s -> st_next s' = st_next s -> store_wf s -> store_wf s'.
Proof. unfold store_wf. by intros -> ->. Qed.

#[export] Hint Resolve cpp_new_wf delete_seq_wf alloc_seq_wf store_wf_same : qgc.

(** The addresses a run of allocations returns are not live before it. *)
Lemma addrs_fresh s k :
  store_wf s -> Forall (fun a => st_heap s !! a = None) (addrs (st_next s) k).
Proof.
  intros Hwf. rewrite Forall_forall. intros a Ha%list_elem_of_In.
  apply elem_of_addrs in Ha. destruct (st_heap s !! a) eqn:E; [|done].
  specialize (Hwf _ _ E). simpl in Hwf. lia.
Qed.
