(* ===== verification/PluginState.v ===== *)
(** The state of the plugin: the private object [QGCCorePlugin_p] (the
    nullable pointers to the settings pages and to the default options it
    owns, and the [QVariantList] of pages) and the plugin object
    [QGCCorePlugin] (its [QGCTool] base, the pointer [_p] and the two
    flags [_showTouchAreas] and [_showAdvancedUI]), with their
    constructors and destructors (QGCCorePlugin.cc, lines 25-90).

    The ownership discipline of the file is stated here: [owned] lists the
    pointers the destructor deletes, [priv_wf] says they are distinct and
    live, and the destructor then frees exactly them; a destructor run on
    a state whose pointers are not distinct is undefined behaviour. *)

From stdpp Require Import base gmap strings list numbers.
From S2P Require Import Spec2Rocq QtTypes Runtime.

(** ** QGCCorePlugin_p *)

Record QGCCorePlugin_p := mkPriv {
  pGeneral : option N;
  pCommLinks : option N;
  pOfflineMaps : option N;
  pMAVLink : option N;
  pConsole : option N;
  pMockLink : option N;      (** a member of debug builds only *)
  pDebug : option N;         (** a member of debug builds only *)
  settingsList : QVariantList;
  defaultOptions : option N
}.

(** [QGCCorePlugin_p()]: every pointer NULL, the list empty. *)
Definition QGCCorePlugin_p_ctor : QGCCorePlugin_p :=
  mkPriv None None None None None None None [] None.

(** [~QGCCorePlugin_p()]: [if(p) delete p;] for each owned pointer, in the
    order of the source; the two debug members only in a debug build. *)
Definition QGCCorePlugin_p_dtor (cfg : BuildConfig) (p : QGCCorePlugin_p) : M unit :=
  delete_if (pGeneral p) ;;
  delete_if (pCommLinks p) ;;
  delete_if (pOfflineMaps p) ;;
  delete_if (pMAVLink p) ;;
  delete_if (pConsole p) ;;
  when (qt_debug cfg) (delete_if (pMockLink p)) ;;
  when (qt_debug cfg) (delete_if (pDebug p)) ;;
  delete_if (defaultOptions p).

(** ** QGCCorePlugin *)

Record QGCCorePlugin := mkPlugin {
  _app : N;                  (** [QGCTool::_app] *)
  _toolbox : N;              (** [QGCTool::_toolbox] *)
  _p : QGCCorePlugin_p;
  _showTouchAreas : bool;
  _showAdvancedUI : bool
}.

(** [QGCCorePlugin(app, toolbox)].  [_p] is never NULL after it and is
    owned by the plugin alone, so the model keeps the private object in
    the plugin record rather than in the free store. *)
Definition QGCCorePlugin_ctor (app toolbox : N) : QGCCorePlugin :=
  mkPlugin app toolbox QGCCorePlugin_p_ctor false true.

(** [~QGCCorePlugin()]: [if(_p) delete _p;], which runs [~QGCCorePlugin_p]. *)
Definition QGCCorePlugin_dtor (cfg : BuildConfig) (pl : QGCCorePlugin) : M unit :=
  QGCCorePlugin_p_dtor cfg (_p pl).

(** Assignments to the members of [QGCCorePlugin_p]. *)
Definition set_pGeneral (x : option N) (p : QGCCorePlugin_p) : QGCCorePlugin_p :=
  mkPriv x (pCommLinks p) (pOfflineMaps p) (pMAVLink p) (pConsole p) (pMockLink p)
         (pDebug p) (settingsList p) (defaultOptions p).
Definition set_pCommLinks (x : option N) (p : QGCCorePlugin_p) : QGCCorePlugin_p :=
  mkPriv (pGeneral p) x (pOfflineMaps p) (pMAVLink p) (pConsole p) (pMockLink p)
         (pDebug p) (settingsList p) (defaultOptions p).
Definition set_pOfflineMaps (x : option N) (p : QGCCorePlugin_p) : QGCCorePlugin_p :=
  mkPriv (pGeneral p) (pCommLinks p) x (pMAVLink p) (pConsole p) (pMockLink p)
         (pDebug p) (settingsList p) (defaultOptions p).
Definition set_pMAVLink (x : option N) (p : QGCCorePlugin_p) : QGCCorePlugin_p :=
  mkPriv (pGeneral p) (pCommLinks p) (pOfflineMaps p) x (pConsole p) (pMockLink p)
         (pDebug p) (settingsList p) (defaultOptions p).
Definition set_pConsole (x : option N) (p : QGCCorePlugin_p) : QGCCorePlugin_p :=
  mkPriv (pGeneral p) (pCommLinks p) (pOfflineMaps p) (pMAVLink p) x (pMockLink p)
         (pDebug p) (settingsList p) (defaultOptions p).
Definition set_pMockLink (x : option N) (p : QGCCorePlugin_p) : QGCCorePlugin_p :=
  mkPriv (pGeneral p) (pCommLinks p) (pOfflineMaps p) (pMAVLink p) (pConsole p) x
         (pDebug p) (settingsList p) (defaultOptions p).
Definition set_pDebug (x : option N) (p : QGCCorePlugin_p) : QGCCorePlugin_p :=
  mkPriv (pGeneral p) (pCommLinks p) (pOfflineMaps p) (pMAVLink p) (pConsole p)
         (pMockLink p) x (settingsList p) (defaultOptions p).
Definition set_settingsList (x : QVariantList) (p : QGCCorePlugin_p) : QGCCorePlugin_p :=
  mkPriv (pGeneral p) (pCommLinks p) (pOfflineMaps p) (pMAVLink p) (pConsole p)
         (pMockLink p) (pDebug p) x (defaultOptions p).
Definition set_defaultOptions (x : option N) (p : QGCCorePlugin_p) : QGCCorePlugin_p :=
  mkPriv (pGeneral p) (pCommLinks p) (pOfflineMaps p) (pMAVLink p) (pConsole p)
         (pMockLink p) (pDebug p) (settingsList p) x.

Definition set_p (p : QGCCorePlugin_p) (pl : QGCCorePlugin) : QGCCorePlugin :=
  mkPlugin (_app pl) (_toolbox pl) p (_showTouchAreas pl) (_showAdvancedUI pl).

Lemma set_p_id pl : set_p (_p pl) pl = pl.
Proof. by destruct pl. Qed.

(** ** Ownership *)

(** The pointer members the destructor tests and deletes, in its order. *)
Definition dtor_page_fields (cfg : BuildConfig) (p : QGCCorePlugin_p) : list (option N) :=
  [pGeneral p; pCommLinks p; pOfflineMaps p; pMAVLink p; pConsole p;
   if qt_debug cfg then pMockLink p else None;
   if qt_debug cfg then pDebug p else None].

Definition dtor_fields (cfg : BuildConfig) (p : QGCCorePlugin_p) : list (option N) :=
  dtor_page_fields cfg p ++ [defaultOptions p].

(** The objects the private object owns. *)
Definition owned (cfg : BuildConfig) (p : QGCCorePlugin_p) : list N :=
  non_null (dtor_fields cfg p).

(** The private object is well formed in a heap: the members a release
    build does not have are NULL, and the owned objects are distinct and
    live. *)
Record priv_wf (cfg : BuildConfig) (p : QGCCorePlugin_p) (h : gmap N Obj) : Prop := {
  pw_release : qt_debug cfg = false -> pMockLink p = None /\ pDebug p = None;
  pw_pages : pGeneral p = None ->
    pCommLinks p = None /\ pOfflineMaps p = None /\ pMAVLink p = None /\
    pConsole p = None /\ pMockLink p = None /\ pDebug p = None;
  pw_nodup : NoDup (owned cfg p);
  pw_live : all_live (owned cfg p) h
}.

#[export] Instance priv_wf_dec cfg p h : Decision (priv_wf cfg p h).
Proof.
  refine (cast_if (decide ((qt_debug cfg = false -> pMockLink p = None /\ pDebug p = None) /\
    (pGeneral p = None -> pCommLinks p = None /\ pOfflineMaps p = None /\ pMAVLink p = None /\
      pConsole p = None /\ pMockLink p = None /\ pDebug p = None) /\
    NoDup (owned cfg p) /\ all_live (owned cfg p) h))).
  - abstract (destruct_and!; by split).
  - abstract (intros []; naive_solver).
Defined.

(** The two build configurations. *)
Definition debug_build : BuildConfig := mkBuildConfig true false.
Definition release_build : BuildConfig := mkBuildConfig false false.

(** ** The destructors *)

(** The destructor is the deletion, in order, of the owned objects. *)
Lemma QGCCorePlugin_p_dtor_eq cfg p s :
  QGCCorePlugin_p_dtor cfg p s = for_each cpp_delete (owned cfg p) s.
Proof.
  unfold owned, dtor_fields, dtor_page_fields, QGCCorePlugin_p_dtor. cbn [app].
  rewrite !for_each_delete_non_null_cons. unfold when.
  destruct (qt_debug cfg); repeat (apply bind_ext; intros [] ?); symmetry; apply bind_ret_tt.
Qed.

Lemma ctor_wf cfg h : priv_wf cfg QGCCorePlugin_p_ctor h.
Proof. split; [done|done| |]; unfold owned, dtor_fields, dtor_page_fields; destruct (qt_debug cfg); constructor. Qed.

Lemma p_dtor_run cfg p s :
  priv_wf cfg p (st_heap s) ->
  QGCCorePlugin_p_dtor cfg p s
  = Ok (tt, with_heap (delete_seq (owned cfg p) (st_heap s)) (st_next s) s).
Proof.
  intros [_ _ Hnd Hlive]. rewrite QGCCorePlugin_p_dtor_eq. by apply for_each_delete_Ok.
Qed.

(** C6: On a well-formed private object, the destructor has no undefined
    behaviour and frees exactly the objects the object owns: nothing else
    is freed and nothing owned survives. *)
Theorem QGCCorePlugin_p_dtor_frees_owned cfg p s :
  priv_wf cfg p (st_heap s) ->
  QGCCorePlugin_p_dtor cfg p s
  = Ok (tt, with_heap (delete_seq (owned cfg p) (st_heap s)) (st_next s) s).
Proof. apply p_dtor_run. Qed.

(** C7: Conversely, a run of the destructor without undefined behaviour
    deletes distinct live objects: a pointer owned twice (two members
    aliasing one page) or already freed makes it a double delete. *)
Theorem QGCCorePlugin_p_dtor_Ok_inv cfg p s s' :
  QGCCorePlugin_p_dtor cfg p s = Ok (tt, s') ->
  NoDup (owned cfg p) /\ all_live (owned cfg p) (st_heap s).
Proof. rewrite QGCCorePlugin_p_dtor_eq. apply for_each_delete_inv. Qed.

(** Allocating a fresh object keeps the owned objects live and distinct
    from it. *)
Lemma owned_live_after_new cfg p s o :
  store_wf s -> priv_wf cfg p (st_heap s) ->
  all_live (owned cfg p) (<[st_next s := o]> (st_heap s)) /\ st_next s ∉ owned cfg p.
Proof.
  intros Hs Hp. pose proof (pw_live _ _ _ Hp) as Hl. unfold all_live in *.
  rewrite Forall_forall in Hl. split.
  - rewrite Forall_forall. intros a Ha. destruct (decide (a = st_next s)) as [->|Hne].
    + rewrite lookup_insert_eq. by eexists.
    + rewrite lookup_insert_ne by done. by apply Hl.
  - intros Hin%list_elem_of_In. destruct (Hl _ Hin) as [x Hx].
    by rewrite cpp_new_fresh in Hx.
Qed.

Lemma priv_wf_insert_fresh cfg p s o :
  store_wf s -> priv_wf cfg p (st_heap s) -> priv_wf cfg p (<[st_next s := o]> (st_heap s)).
Proof.
  intros Hs Hp. destruct (owned_live_after_new cfg p s o Hs Hp) as [Hl _].
  destruct Hp. by split.
Qed.

Lemma owned_set_settingsList cfg l p : owned cfg (set_settingsList l p) = owned cfg p.
Proof. by destruct p. Qed.

Lemma priv_wf_set_settingsList cfg l p h :
  priv_wf cfg (set_settingsList l p) h <-> priv_wf cfg p h.
Proof. destruct p. split; intros []; by split. Qed.

#[export] Hint Resolve ctor_wf priv_wf_insert_fresh : qgc.

(** ** Witnesses: a private object owning one page and the options *)

(** A plugin just constructed, with application 1 and toolbox 2. *)
Definition plugin0 : QGCCorePlugin := QGCCorePlugin_ctor 1 2.

Definition page0 : QGCSettings := mkQGCSettings "Page" (mkQUrl "qrc:/Page.qml") QUrl_empty.

Definition priv1 : QGCCorePlugin_p :=
  set_pGeneral (Some 0%N) (set_defaultOptions (Some 1%N) QGCCorePlugin_p_ctor).

Definition store1 : Store :=
  with_heap (<[1%N := OOptions QGCOptions_default]> (<[0%N := OSettings page0]> ∅)) 2 empty_store.

Lemma QGCCorePlugin_p_dtor_frees_owned_witness :
  priv_wf release_build priv1 (st_heap store1) /\
  QGCCorePlugin_p_dtor release_build priv1 store1
  = Ok (tt, with_heap (delete_seq (owned release_build priv1) (st_heap store1))
                      (st_next store1) store1).
Proof.
  assert (Hw : priv_wf release_build priv1 (st_heap store1))
    by vm_decide.
  split; [exact Hw|]. exact (QGCCorePlugin_p_dtor_frees_owned _ _ _ Hw).
Defined.

Lemma QGCCorePlugin_p_dtor_Ok_inv_witness :
  exists s', QGCCorePlugin_p_dtor release_build priv1 store1 = Ok (tt, s') /\
    NoDup (owned release_build priv1) /\ all_live (owned release_build priv1) (st_heap store1).
Proof.
  destruct (QGCCorePlugin_p_dtor release_build priv1 store1) as [[[] s']|u] eqn:E;
    [|vm_compute in E; discriminate].
  exists s'. split; [reflexivity|]. exact (QGCCorePlugin_p_dtor_Ok_inv _ _ _ _ E).
Defined.
