(* ===== verification/SettingsPages.v ===== *)
(** The settings-page registry: [QGCCorePlugin::settingsPages()]
    (QGCCorePlugin.cc, lines 100-135).  On the call that finds
    [_p->pGeneral] NULL it allocates the five default pages (seven in a
    debug build), stores each pointer in its member and appends it to
    [_p->settingsList]; every call returns that list.

    The theorems: the first call returns the default pages in display
    order, as fresh objects; later calls return the same list and change
    nothing, so two calls in a row equal one ([settingsPages_idempotent]);
    the list holds exactly the objects the members own; the
    ownership invariant [priv_wf] is preserved.  The guard is the member
    [pGeneral], not the list: by [settingsPages_cached], a list emptied
    through the returned reference is not refilled. *)

From stdpp Require Import base gmap strings list numbers.
From S2P Require Import Spec2Rocq QtTypes Runtime PluginState.

Section SettingsPages.
Context `{Translator}.

(** ** The default pages, as the source constructs them *)

Definition general_page : QGCSettings :=
  mkQGCSettings (tr "General") (fromUserInput "qrc:/qml/GeneralSettings.qml")
                (fromUserInput "qrc:/res/gear-white.svg").
Definition commLinks_page : QGCSettings :=
  mkQGCSettings (tr "Comm Links") (fromUserInput "qrc:/qml/LinkSettings.qml")
                (fromUserInput "qrc:/res/waves.svg").
Definition offlineMaps_page : QGCSettings :=
  mkQGCSettings (tr "Offline Maps") (fromUserInput "qrc:/qml/OfflineMap.qml")
                (fromUserInput "qrc:/res/waves.svg").
Definition mavlink_page : QGCSettings :=
  mkQGCSettings (tr "MAVLink") (fromUserInput "qrc:/qml/MavlinkSettings.qml")
                (fromUserInput "qrc:/res/waves.svg").
Definition console_page : QGCSettings :=
  mkQGCSettings (tr "Console")
                (fromUserInput "qrc:/qml/QGroundControl/Controls/AppMessages.qml")
                QUrl_empty.
Definition mockLink_page : QGCSettings :=
  mkQGCSettings (tr "Mock Link") (fromUserInput "qrc:/qml/MockLink.qml") QUrl_empty.
Definition debug_page : QGCSettings :=
  mkQGCSettings (tr "Debug") (fromUserInput "qrc:/qml/DebugWindow.qml") QUrl_empty.

(** [_p->pX = new QGCSettings(...); _p->settingsList.append(QVariant::fromValue(_p->pX));] *)
Definition create_page (set : option N -> QGCCorePlugin_p -> QGCCorePlugin_p)
    (page : QGCSettings) (p : QGCCorePlugin_p) : M QGCCorePlugin_p :=
  do l <- cpp_new (OSettings page);
  let p := set (Some l) p in
  ret (set_settingsList (settingsList p ++ [QV_settings l]) p).

Definition settingsPages_p (cfg : BuildConfig) (p : QGCCorePlugin_p) : M QGCCorePlugin_p :=
  match pGeneral p with
  | None =>
      do p <- create_page set_pGeneral general_page p;
      do p <- create_page set_pCommLinks commLinks_page p;
      do p <- create_page set_pOfflineMaps offlineMaps_page p;
      do p <- create_page set_pMAVLink mavlink_page p;
      do p <- create_page set_pConsole console_page p;
      if qt_debug cfg then
        do p <- create_page set_pMockLink mockLink_page p;
        create_page set_pDebug debug_page p
      else ret p
  | Some _ => ret p
  end.

(** [QVariantList& QGCCorePlugin::settingsPages()]: the list is returned
    by reference; the model returns its value and the updated plugin. *)
Definition settingsPages (cfg : BuildConfig) (pl : QGCCorePlugin)
    : M (QVariantList * QGCCorePlugin) :=
  do p <- settingsPages_p cfg (_p pl);
  ret (settingsList p, set_p p pl).

(** ** Observations *)

(** The pages of the default set, in display order. *)
Definition default_pages (cfg : BuildConfig) : list QGCSettings :=
  [general_page; commLinks_page; offlineMaps_page; mavlink_page; console_page] ++
  (if qt_debug cfg then [mockLink_page; debug_page] else []).

(** The page an entry of the list points to, in heap [h]. *)
Definition page_at (h : gmap N Obj) (v : QVariant) : option QGCSettings :=
  match v with
  | QV_settings l =>
      match h !! l with
      | Some (OSettings s) => Some s
      | _ => None
      end
  | _ => None
  end.

(** The members holding page pointers, in the order the pages are made. *)
Definition page_fields (p : QGCCorePlugin_p) : list (option N) :=
  [pGeneral p; pCommLinks p; pOfflineMaps p; pMAVLink p; pConsole p;
   pMockLink p; pDebug p].

End SettingsPages.

Section SettingsPagesProofs.
Context `{Translator}.

(** The private object after the pages are made at [n], [n+1], ... *)
Definition fill_pages (cfg : BuildConfig) (n : N) (p : QGCCorePlugin_p) : QGCCorePlugin_p :=
  let a := addrs n (length (default_pages cfg)) in
  mkPriv (nth_error a 0) (nth_error a 1) (nth_error a 2) (nth_error a 3) (nth_error a 4)
         (if qt_debug cfg then nth_error a 5 else pMockLink p)
         (if qt_debug cfg then nth_error a 6 else pDebug p)
         (settingsList p ++ map QV_settings a) (defaultOptions p).

(** The first call, in closed form: the pages are allocated in order at
    consecutive fresh addresses and appended to the list. *)
Lemma settingsPages_p_None cfg p s :
  pGeneral p = None ->
  settingsPages_p cfg p s =
  Ok (fill_pages cfg (st_next s) p,
      with_heap (alloc_seq (st_next s) (map OSettings (default_pages cfg)) (st_heap s))
                (st_next s + N.of_nat (length (default_pages cfg)))%N s).
Proof.
  intros Hn. destruct p as [g c o m co ml d sl opt]; simpl in Hn; subst g.
  destruct s as [h n sg q ow j dm]; destruct cfg as [[] mob];
    cbv beta iota zeta delta [settingsPages_p fill_pages create_page cpp_new ret bind
      set_settingsList set_pGeneral set_pCommLinks set_pOfflineMaps set_pMAVLink
      set_pConsole set_pMockLink set_pDebug default_pages addrs alloc_seq nth_error map
      length with_heap settingsList pGeneral pCommLinks pOfflineMaps pMAVLink pConsole
      pMockLink pDebug defaultOptions qt_debug st_heap st_next st_signals st_qmlTypes
      st_ownership st_joystickManager st_debugMessageModel];
    rewrite <- !app_assoc; cbn [app]; do 3 f_equal; lia.
Qed.


Lemma settingsPages_p_Some cfg p s l :
  pGeneral p = Some l -> settingsPages_p cfg p s = Ok (p, s).
Proof. intros Hl. unfold settingsPages_p. by rewrite Hl. Qed.

Lemma length_default_pages cfg :
  length (default_pages cfg) = if qt_debug cfg then 7 else 5.
Proof. unfold default_pages. by destruct (qt_debug cfg). Qed.

Lemma mapM_page_at_alloc_seq n xs h :
  mapM (page_at (alloc_seq n (map OSettings xs) h)) (map QV_settings (addrs n (length xs)))
  = Some xs.
Proof.
  revert n h. induction xs as [|x xs IH]; intros n h; [reflexivity|].
  cbn [length addrs map alloc_seq mapM].
  replace (page_at _ (QV_settings n)) with (Some x); [simpl; by rewrite IH|].
  simpl. rewrite lookup_alloc_seq_out by lia. by rewrite lookup_insert_eq.
Qed.

Lemma alloc_seq_addrs_live n xs h a :
  a ∈ addrs n (length xs) -> is_Some (alloc_seq n xs h !! a).
Proof.
  revert n h. induction xs as [|x xs IH]; intros n h Ha; cbn [length addrs] in Ha.
  - by apply elem_of_nil in Ha.
  - apply elem_of_cons in Ha as [->|Ha].
    + rewrite lookup_alloc_seq_addr. by eexists.
    + cbn [alloc_seq]. by apply IH.
Qed.

(** The members the destructor deletes after the first call are the new
    pages and the options. *)
Lemma owned_fill_pages cfg n p :
  owned cfg (fill_pages cfg n p)
  = addrs n (length (default_pages cfg)) ++ non_null [defaultOptions p].
Proof. by destruct cfg as [[] ?]. Qed.

(** C3: The first call of [settingsPages()] (with [_p->pGeneral] NULL)
    appends to the list the default pages in display order (General, Comm
    Links, Offline Maps, MAVLink, Console, and Mock Link and Debug in a
    debug build), each a distinct freshly allocated object, and leaves
    every object that was live before untouched. *)
Theorem settingsPages_first cfg pl s :
  store_wf s -> pGeneral (_p pl) = None ->
  exists news pl' s',
    settingsPages cfg pl s = Ok ((settingsList (_p pl) ++ map QV_settings news, pl'), s') /\
    mapM (page_at (st_heap s')) (map QV_settings news) = Some (default_pages cfg) /\
    NoDup news /\ Forall (fun a => st_heap s !! a = None) news /\
    (forall a o, st_heap s !! a = Some o -> st_heap s' !! a = Some o).
Proof.
  intros Hwf Hn. unfold settingsPages. erewrite bind_Ok by (by apply settingsPages_p_None).
  eexists _, _, _. split; [reflexivity|]. split_and!.
  - cbn [st_heap with_heap]. apply mapM_page_at_alloc_seq.
  - apply NoDup_addrs.
  - by apply addrs_fresh.
  - intros a o Ha. by apply alloc_seq_preserves.
Qed.

Lemma settingsPages_cached_run cfg pl s l :
  pGeneral (_p pl) = Some l ->
  settingsPages cfg pl s = Ok ((settingsList (_p pl), pl), s).
Proof.
  intros Hl. unfold settingsPages. erewrite bind_Ok by (by eapply settingsPages_p_Some).
  by rewrite set_p_id.
Qed.

(** C4: Once the pages exist ([_p->pGeneral] set), [settingsPages()]
    returns the list it holds and changes neither the plugin nor the
    store; in particular a second call returns what the first returned. *)
Theorem settingsPages_cached cfg pl s l :
  pGeneral (_p pl) = Some l ->
  settingsPages cfg pl s = Ok ((settingsList (_p pl), pl), s).
Proof. apply settingsPages_cached_run. Qed.

Lemma settingsPages_sets_pGeneral cfg pl s r pl' s' :
  settingsPages cfg pl s = Ok ((r, pl'), s') -> is_Some (pGeneral (_p pl')).
Proof.
  unfold settingsPages. destruct (pGeneral (_p pl)) as [l|] eqn:E.
  - erewrite bind_Ok by (by eapply settingsPages_p_Some). intros [= _ <- _].
    rewrite set_p_id, E. by eexists.
  - erewrite bind_Ok by (by apply settingsPages_p_None). intros [= _ <- _].
    cbn [set_p _p]. unfold fill_pages; cbn [pGeneral]. rewrite length_default_pages. destruct (qt_debug cfg); by eexists.
Qed.

Lemma settingsPages_returns_list cfg pl s r pl' s' :
  settingsPages cfg pl s = Ok ((r, pl'), s') -> r = settingsList (_p pl').
Proof.
  unfold settingsPages, bind. destruct (settingsPages_p cfg (_p pl) s) as [[p s'']|]; [|done].
  by intros [= <- <- _].
Qed.


Lemma pGeneral_fill_pages cfg n p : pGeneral (fill_pages cfg n p) = Some n.
Proof. unfold fill_pages; cbn [pGeneral]. rewrite length_default_pages. by destruct (qt_debug cfg). Qed.

Lemma no_pages_of_wf cfg p h :
  priv_wf cfg p h -> pGeneral p = None -> Forall (fun x => x = None) (page_fields p).
Proof.
  intros Hwf Hg. destruct (pw_pages _ _ _ Hwf Hg) as (? & ? & ? & ? & ? & ?).
  unfold page_fields. rewrite Hg. by repeat constructor.
Qed.

Lemma owned_no_pages cfg p :
  Forall (fun x => x = None) (page_fields p) -> owned cfg p = non_null [defaultOptions p].
Proof.
  intros Hn. unfold page_fields in Hn. repeat (apply Forall_cons_1 in Hn as [? Hn]).
  destruct p; simpl in *; subst. by destruct cfg as [[] ?].
Qed.

Lemma settingsPages_p_preserves_wf cfg p s p' s' :
  store_wf s -> priv_wf cfg p (st_heap s) ->
  settingsPages_p cfg p s = Ok (p', s') ->
  store_wf s' /\ priv_wf cfg p' (st_heap s').
Proof.
  intros Hs Hp. destruct (pGeneral p) as [l|] eqn:Hg.
  { rewrite (settingsPages_p_Some _ _ _ _ Hg). by intros [= <- <-]. }
  rewrite (settingsPages_p_None _ _ _ Hg). intros [= <- <-].
  pose proof (no_pages_of_wf _ _ _ Hp Hg) as Hn.
  pose proof (pw_live _ _ _ Hp) as Hl. rewrite (owned_no_pages _ _ Hn) in Hl.
  split.
  { pose proof (alloc_seq_wf s (map OSettings (default_pages cfg)) Hs) as W.
    by rewrite length_map in W. }
  split.
  - intros Hd. unfold fill_pages; cbn [pMockLink pDebug]. rewrite Hd.
    by apply (pw_release _ _ _ Hp).
  - by rewrite pGeneral_fill_pages.
  - rewrite owned_fill_pages. apply list.NoDup_app. split_and!; [apply NoDup_addrs| |].
    + intros a Ha%elem_of_addrs Ho. destruct (defaultOptions p) as [o|] eqn:Eo; simpl in Ho;
        [|by apply elem_of_nil in Ho].
      apply list_elem_of_singleton in Ho as ->. inversion Hl as [|? ? [x Hx]]; subst.
      specialize (Hs _ _ Hx). simpl in Hs. lia.
    + destruct (defaultOptions p); simpl; repeat constructor. set_solver.
  - rewrite owned_fill_pages. apply Forall_app. split.
    + rewrite Forall_forall. intros a Ha. cbn [st_heap with_heap].
      apply (alloc_seq_addrs_live (st_next s) (map OSettings (default_pages cfg))).
      rewrite length_map. by apply list_elem_of_In.
    + destruct (defaultOptions p) as [o|] eqn:Eo; simpl in Hl; [|constructor].
      inversion Hl as [|? ? [x Hx]]; subst.
      pose proof (alloc_seq_preserves s (map OSettings (default_pages cfg)) o x Hs Hx) as Ho.
      constructor; [eexists; exact Ho|constructor].
Qed.

(** C9: Right after the first call on an empty list, the list holds
    exactly the pages the members point to, in the members' order: the
    [QVariant]s and the members alias the same objects. *)
Theorem settingsPages_list_aliases_members cfg pl s r pl' s' :
  Forall (fun x => x = None) (page_fields (_p pl)) -> settingsList (_p pl) = [] ->
  (qt_debug cfg = false -> pMockLink (_p pl) = None /\ pDebug (_p pl) = None) ->
  settingsPages cfg pl s = Ok ((r, pl'), s') ->
  r = map QV_settings (non_null (page_fields (_p pl'))).
Proof.
  intros Hn Hl Hrel. pose proof Hn as Hn'. unfold page_fields in Hn'.
  inversion Hn' as [|? ? Hg _]; subst.
  unfold settingsPages. rewrite (bind_Ok _ _ _ _ _ (settingsPages_p_None cfg _ s Hg)).
  intros [= <- <- _]. cbn [set_p _p]. unfold fill_pages, page_fields. rewrite Hl.
  destruct cfg as [[] ?]; [done|]. destruct (Hrel eq_refl) as [-> ->]. done.
Qed.

(** [settingsPages()] never fails: it returns the list and the plugin. *)
Lemma settingsPages_total cfg pl s :
  exists r pl' s', settingsPages cfg pl s = Ok ((r, pl'), s').
Proof.
  destruct (pGeneral (_p pl)) as [g|] eqn:Hg.
  - rewrite (settingsPages_cached_run cfg pl s g Hg). by eexists _, _, _.
  - unfold settingsPages. rewrite (bind_Ok _ _ _ _ _ (settingsPages_p_None cfg _ s Hg)).
    by eexists _, _, _.
Qed.

(** C18: [settingsPages()] is idempotent: two calls in a row, from any
    state, give the same list, plugin and store as one call; the second
    call allocates nothing. *)
Theorem settingsPages_idempotent cfg pl s :
  bind (settingsPages cfg pl) (fun r => settingsPages cfg (snd r)) s = settingsPages cfg pl s.
Proof.
  destruct (settingsPages_total cfg pl s) as (r & pl' & s' & E).
  rewrite (bind_Ok _ _ _ _ _ E), E. cbn [snd].
  destruct (settingsPages_sets_pGeneral _ _ _ _ _ _ E) as [g Hg].
  rewrite (settingsPages_cached_run cfg pl' s' g Hg).
  by rewrite <- (settingsPages_returns_list _ _ _ _ _ _ E).
Qed.

End SettingsPagesProofs.

(** ** Witnesses: the theorems at a concrete plugin and store *)

Section Witnesses.
#[local] Existing Instance untranslated.

Lemma settingsPages_first_witness :
  store_wf empty_store /\ pGeneral (_p plugin0) = None /\
  exists news pl' s',
    settingsPages debug_build plugin0 empty_store
      = Ok ((settingsList (_p plugin0) ++ map QV_settings news, pl'), s') /\
    mapM (page_at (st_heap s')) (map QV_settings news) = Some (default_pages debug_build) /\
    NoDup news /\ Forall (fun a => st_heap empty_store !! a = None) news /\
    (forall a o, st_heap empty_store !! a = Some o -> st_heap s' !! a = Some o).
Proof.
  pose proof empty_store_wf as Hwf.
  split; [exact Hwf|]. split; [reflexivity|].
  apply (settingsPages_first debug_build plugin0 empty_store Hwf). reflexivity.
Defined.

Lemma settingsPages_cached_witness :
  pGeneral (_p (set_p (set_pGeneral (Some 7%N) (_p plugin0)) plugin0)) = Some 7%N /\
  settingsPages release_build (set_p (set_pGeneral (Some 7%N) (_p plugin0)) plugin0) empty_store
  = Ok ((settingsList (_p (set_p (set_pGeneral (Some 7%N) (_p plugin0)) plugin0)),
         set_p (set_pGeneral (Some 7%N) (_p plugin0)) plugin0), empty_store).
Proof. split; [reflexivity|]. apply (settingsPages_cached _ _ _ 7%N). reflexivity. Defined.

Lemma settingsPages_list_aliases_members_witness :
  exists r pl' s',
    Forall (fun x => x = None) (page_fields (_p plugin0)) /\ settingsList (_p plugin0) = [] /\
    (qt_debug release_build = false -> pMockLink (_p plugin0) = None /\ pDebug (_p plugin0) = None) /\
    settingsPages release_build plugin0 empty_store = Ok ((r, pl'), s') /\
    r = map QV_settings (non_null (page_fields (_p pl'))).
Proof.
  assert (Hn : Forall (fun x => x = None) (page_fields (_p plugin0))) by (repeat constructor).
  assert (Hl : settingsList (_p plugin0) = []) by reflexivity.
  assert (Hr : qt_debug release_build = false ->
               pMockLink (_p plugin0) = None /\ pDebug (_p plugin0) = None) by done.
  destruct (settingsPages release_build plugin0 empty_store) as [[[r pl'] s']|u] eqn:E;
    [|vm_compute in E; discriminate].
  exists r, pl', s'. split_and!; [exact Hn|exact Hl|exact Hr|reflexivity|].
  exact (settingsPages_list_aliases_members _ _ _ _ _ _ Hn Hl Hr E).
Defined.

End Witnesses.
