(* ===== verification/Options.v ===== *)
(** The options provider: [QGCCorePlugin::options()] (QGCCorePlugin.cc,
    lines 142-148).  The first call allocates one [QGCOptions] and keeps
    it in [_p->defaultOptions]; every call returns that pointer.

    The theorems: the pointer returned is never NULL and points to a live
    options object; every later call returns the same pointer and changes
    nothing (one instance per plugin); the call preserves the ownership
    invariant, so that the destructor frees the instance exactly once. *)

From stdpp Require Import base gmap strings list numbers.
From S2P Require Import Spec2Rocq QtTypes Runtime PluginState.

(** [if(!_p->defaultOptions) _p->defaultOptions = new QGCOptions();
     return _p->defaultOptions;] *)
Definition options_p (p : QGCCorePlugin_p) : M (option N * QGCCorePlugin_p) :=
  do p <- match defaultOptions p with
          | None => do l <- cpp_new (OOptions QGCOptions_default);
                    ret (set_defaultOptions (Some l) p)
          | Some _ => ret p
          end;
  ret (defaultOptions p, p).

Definition options (pl : QGCCorePlugin) : M (option N * QGCCorePlugin) :=
  do r <- options_p (_p pl);
  ret (fst r, set_p (snd r) pl).

(** ** Lemmas *)

Lemma options_p_None p s :
  defaultOptions p = None ->
  options_p p s = Ok ((Some (st_next s), set_defaultOptions (Some (st_next s)) p),
                      with_heap (<[st_next s := OOptions QGCOptions_default]> (st_heap s))
                                (st_next s + 1)%N s).
Proof. intros Hn. unfold options_p. rewrite Hn. reflexivity. Qed.

Lemma options_p_Some p s l :
  defaultOptions p = Some l -> options_p p s = Ok ((Some l, p), s).
Proof. intros Hl. unfold options_p. rewrite Hl. unfold bind, ret. by rewrite Hl. Qed.

(** [options()] always returns. *)
Lemma options_total pl s : exists r pl' s', options pl s = Ok ((r, pl'), s').
Proof.
  unfold options. destruct (defaultOptions (_p pl)) as [l|] eqn:E.
  - rewrite (bind_Ok _ _ _ _ _ (options_p_Some _ s l E)). by eexists _, _, _.
  - rewrite (bind_Ok _ _ _ _ _ (options_p_None _ s E)). by eexists _, _, _.
Qed.

Lemma owned_set_defaultOptions cfg p l :
  defaultOptions p = None ->
  owned cfg (set_defaultOptions (Some l) p) = owned cfg p ++ [l].
Proof.
  intros Hn. unfold owned, dtor_fields. rewrite !non_null_app, Hn.
  replace (dtor_page_fields cfg (set_defaultOptions (Some l) p))
    with (dtor_page_fields cfg p) by (by destruct p).
  change (non_null [None]) with (@nil N). change (non_null [Some l]) with [l].
  by rewrite app_nil_r.
Qed.

(** C8: [options()] never returns NULL: it returns a live [QGCOptions]
    object, the one held in [_p->defaultOptions] (allocated by this call
    if it was NULL, at an address that was not live before). *)
Theorem options_returns_instance cfg pl s :
  store_wf s -> priv_wf cfg (_p pl) (st_heap s) ->
  (forall l o, defaultOptions (_p pl) = Some l -> st_heap s !! l = Some o -> o = OOptions QGCOptions_default) ->
  exists l pl' s',
    options pl s = Ok ((Some l, pl'), s') /\ defaultOptions (_p pl') = Some l /\
    st_heap s' !! l = Some (OOptions QGCOptions_default) /\
    (defaultOptions (_p pl) = None -> st_heap s !! l = None).
Proof.
  intros Hwf Hp Hobj. unfold options. destruct (defaultOptions (_p pl)) as [l|] eqn:E.
  - erewrite bind_Ok by (by eapply options_p_Some). exists l, (set_p (_p pl) pl), s.
    split_and!; [done|done| |done].
    assert (Hin : l ∈ owned cfg (_p pl)).
    { unfold owned, dtor_fields. rewrite non_null_app, E. set_solver. }
    pose proof (pw_live _ _ _ Hp) as Hl. unfold all_live in Hl. rewrite Forall_forall in Hl.
    apply list_elem_of_In in Hin. destruct (Hl l Hin) as [o Ho].
    by rewrite Ho, (Hobj l o eq_refl Ho).
  - erewrite bind_Ok by (by apply options_p_None). eexists _, _, _. split_and!; [done|done| |].
    + simpl. apply lookup_insert_eq.
    + intros _. by apply cpp_new_fresh.
Qed.

(** C5: One instance per plugin: a later call of [options()] returns the
    pointer the earlier call returned, allocates nothing and changes
    neither the plugin nor the store. *)
Theorem options_same_instance pl s r pl' s' :
  options pl s = Ok ((r, pl'), s') ->
  is_Some r /\ options pl' s' = Ok ((r, pl'), s').
Proof.
  unfold options. destruct (defaultOptions (_p pl)) as [l|] eqn:E.
  - erewrite bind_Ok by (by eapply options_p_Some). intros [= <- <- <-].
    split; [by eexists|]. rewrite set_p_id. erewrite bind_Ok by (by eapply options_p_Some).
    by destruct pl.
  - erewrite bind_Ok by (by apply options_p_None). intros [= <- <- <-].
    split; [by eexists|]. erewrite bind_Ok by (by eapply options_p_Some). by destruct pl.
Qed.

Lemma options_preserves_wf cfg pl s r pl' s' :
  store_wf s -> priv_wf cfg (_p pl) (st_heap s) ->
  options pl s = Ok ((r, pl'), s') ->
  store_wf s' /\ priv_wf cfg (_p pl') (st_heap s').
Proof.
  intros Hs Hp. unfold options. destruct (defaultOptions (_p pl)) as [l|] eqn:E.
  - erewrite bind_Ok by (by eapply options_p_Some). intros [= _ <- <-]. by rewrite set_p_id.
  - erewrite bind_Ok by (by apply options_p_None). intros [= _ <- <-].
    split; [by eauto with qgc|]. cbn [set_p _p snd].
    destruct (owned_live_after_new cfg _ s (OOptions QGCOptions_default) Hs Hp) as [Hl Hn].
    destruct Hp as [Hrel Hpages Hnd Hlive]. split.
    + by destruct (_p pl).
    + by destruct (_p pl).
    + rewrite owned_set_defaultOptions by done. apply list.NoDup_app.
      split_and!; [done| |apply NoDup_singleton]. intros a Ha ->%list_elem_of_singleton.
      by apply Hn.
    + rewrite owned_set_defaultOptions by done. apply Forall_app. split; [done|].
      constructor; [|constructor]. simpl. rewrite lookup_insert_eq. by eexists.
Qed.

(** ** Witnesses: the first and a second call on a new plugin *)

Lemma options_returns_instance_witness :
  store_wf empty_store /\ priv_wf release_build (_p plugin0) (st_heap empty_store) /\
  (forall l o, defaultOptions (_p plugin0) = Some l -> st_heap empty_store !! l = Some o ->
               o = OOptions QGCOptions_default) /\
  exists l pl' s',
    options plugin0 empty_store = Ok ((Some l, pl'), s') /\ defaultOptions (_p pl') = Some l /\
    st_heap s' !! l = Some (OOptions QGCOptions_default) /\
    (defaultOptions (_p plugin0) = None -> st_heap empty_store !! l = None).
Proof.
  pose proof empty_store_wf as Hs.
  assert (Hp : priv_wf release_build (_p plugin0) (st_heap empty_store))
    by vm_decide.
  assert (Ho : forall l o, defaultOptions (_p plugin0) = Some l ->
                 st_heap empty_store !! l = Some o -> o = OOptions QGCOptions_default)
    by (intros l o E; discriminate E).
  split_and!; [exact Hs|exact Hp|exact Ho|].
  exact (options_returns_instance release_build plugin0 empty_store Hs Hp Ho).
Defined.

Lemma options_same_instance_witness :
  exists r pl' s', options plugin0 empty_store = Ok ((r, pl'), s') /\
    is_Some r /\ options pl' s' = Ok ((r, pl'), s').
Proof.
  destruct (options plugin0 empty_store) as [[[r pl'] s']|u] eqn:E;
    [|vm_compute in E; discriminate].
  exists r, pl', s'. split; [reflexivity|]. exact (options_same_instance _ _ _ _ _ E).
Defined.

