(* ===== verification/UiFlags.v ===== *)
(** The two notifying properties of the plugin: [setShowTouchAreas] and
    [setShowAdvancedUI] (QGCCorePlugin.cc, lines 183-197).  Each assigns
    its member and emits its NOTIFY signal only when the value changes.

    The interface [NotifyingFlag] states what such a setter promises the
    QML bindings that read the property and listen to its signal: after a
    set the getter returns the value set; the signal is emitted, with the
    new value, exactly when the value changed; nothing else changes.  The
    client theorems about runs of many sets are proved against the
    interface only, and both setters discharge it: the signals of a run
    are exactly the value changes ([changes]); consecutive notifications
    alternate, so none is redundant; the last one carries the current
    value. *)

From stdpp Require Import base gmap strings list numbers.
From S2P Require Import Spec2Rocq QtTypes Runtime PluginState.

(** ** The setters, as the source writes them *)

Definition set_showTouchAreas (b : bool) (pl : QGCCorePlugin) : QGCCorePlugin :=
  mkPlugin (_app pl) (_toolbox pl) (_p pl) b (_showAdvancedUI pl).

Definition set_showAdvancedUI (b : bool) (pl : QGCCorePlugin) : QGCCorePlugin :=
  mkPlugin (_app pl) (_toolbox pl) (_p pl) (_showTouchAreas pl) b.

(** [if (show != _showTouchAreas) { _showTouchAreas = show;
     emit showTouchAreasChanged(show); }] *)
Definition setShowTouchAreas (show : bool) (pl : QGCCorePlugin) : M QGCCorePlugin :=
  if negb (Bool.eqb show (_showTouchAreas pl)) then
    let pl := set_showTouchAreas show pl in
    emit (showTouchAreasChanged show) ;;
    ret pl
  else ret pl.

(** [if (show != _showAdvancedUI) { _showAdvancedUI = show;
     emit showAdvancedUIChanged(show); }] *)
Definition setShowAdvancedUI (show : bool) (pl : QGCCorePlugin) : M QGCCorePlugin :=
  if negb (Bool.eqb show (_showAdvancedUI pl)) then
    let pl := set_showAdvancedUI show pl in
    emit (showAdvancedUIChanged show) ;;
    ret pl
  else ret pl.

(** ** The interface of a notifying boolean property *)

(** The store apart from its signal queue. *)
Definition same_but_signals (s s' : Store) : Prop :=
  st_heap s' = st_heap s /\ st_next s' = st_next s /\ st_qmlTypes s' = st_qmlTypes s /\
  st_ownership s' = st_ownership s.

Class NotifyingFlag (get : QGCCorePlugin -> bool)
      (setter : bool -> QGCCorePlugin -> M QGCCorePlugin) (changed : bool -> Signal) := {
  flag_total : forall b pl s, exists pl' s', setter b pl s = Ok (pl', s');
  flag_get : forall b pl s pl' s', setter b pl s = Ok (pl', s') -> get pl' = b;
  flag_signals : forall b pl s pl' s', setter b pl s = Ok (pl', s') ->
    st_signals s' = st_signals s ++ (if Bool.eqb b (get pl) then [] else [changed b]);
  flag_frame : forall b pl s pl' s', setter b pl s = Ok (pl', s') ->
    _p pl' = _p pl /\ same_but_signals s s'
}.

(** ** Runs of sets, and the abstract notifications *)

(** [setter(b1); setter(b2); ...] *)
Fixpoint run_sets (setter : bool -> QGCCorePlugin -> M QGCCorePlugin) (bs : list bool)
    (pl : QGCCorePlugin) : M QGCCorePlugin :=
  match bs with
  | [] => ret pl
  | b :: bs => do pl <- setter b pl; run_sets setter bs pl
  end.

(** The notifications a sequence of sets should produce from value [v]:
    one per change, carrying the new value. *)
Fixpoint changes (changed : bool -> Signal) (v : bool) (bs : list bool) : list Signal :=
  match bs with
  | [] => []
  | b :: bs => if Bool.eqb b v then changes changed v bs else changed b :: changes changed b bs
  end.

(** [n] values alternating from [b]: [b; negb b; b; ...]. *)
Fixpoint alternating (b : bool) (n : nat) : list bool :=
  match n with
  | O => []
  | S n => b :: alternating (negb b) n
  end.

(** The value after the sets [bs] from [v]. *)
Definition final_value (v : bool) (bs : list bool) : bool := last bs v.

(** ** Properties of the abstract notifications *)

Lemma last_cons_default {A} (c : A) (bs : list A) d d' : last (c :: bs) d = last (c :: bs) d'.
Proof. revert c. induction bs as [|a bs IH]; intros c; [done|]. apply IH. Qed.

Lemma final_value_cons v b bs : final_value v (b :: bs) = final_value b bs.
Proof.
  unfold final_value. destruct bs as [|c bs]; [done|].
  change (last (c :: bs) v = last (c :: bs) b). apply last_cons_default.
Qed.

(** Agreeing on everything but the signals is an equivalence, so that
    [reflexivity] and [transitivity] work on it. *)
#[export] Instance same_but_signals_equiv : Equivalence same_but_signals.
Proof.
  split.
  - done.
  - intros s s' (? & ? & ? & ?). by split_and!.
  - intros s1 s2 s3 (? & ? & ? & ?) (? & ? & ? & ?). split_and!; congruence.
Qed.

Lemma changes_alternating (changed : bool -> Signal) v bs :
  changes changed v bs
  = map changed (alternating (negb v) (length (changes changed v bs))) /\
  final_value v bs = Nat.iter (length (changes changed v bs)) negb v.
Proof.
  revert v. induction bs as [|b bs IH]; intros v; [done|].
  rewrite final_value_cons. cbn [changes]. destruct (Bool.eqb b v) eqn:E.
  - apply Bool.eqb_prop in E as ->. apply IH.
  - destruct (IH b) as [IH1 IH2]. assert (b = negb v) as ->.
    { by destruct b, v. }
    rewrite negb_involutive in IH1. cbn [length alternating map]. rewrite negb_involutive.
    split; [by f_equal|]. rewrite IH2. by rewrite Nat.iter_succ_r.
Qed.

(** ** Client theorems, against the interface *)

Section FlagClient.
Context {get : QGCCorePlugin -> bool} {setter : bool -> QGCCorePlugin -> M QGCCorePlugin}
        {changed : bool -> Signal} `{!NotifyingFlag get setter changed}.

Lemma run_sets_changes bs pl s :
  exists pl' s', run_sets setter bs pl s = Ok (pl', s') /\
    get pl' = final_value (get pl) bs /\
    st_signals s' = st_signals s ++ changes changed (get pl) bs /\
    _p pl' = _p pl /\ same_but_signals s s'.
Proof.
  revert pl s. induction bs as [|b bs IH]; intros pl s.
  - exists pl, s. split_and!; [done|done|by rewrite app_nil_r|done|done].
  - destruct (flag_total b pl s) as (pl1 & s1 & H1).
    destruct (IH pl1 s1) as (pl' & s' & Hrun & Hget & Hsig & Hp & Hsame).
    exists pl', s'. pose proof (flag_get _ _ _ _ _ H1) as G1.
    destruct (flag_frame _ _ _ _ _ H1) as [Hp1 Hs1]. split_and!.
    + cbn [run_sets]. by rewrite (bind_Ok _ _ _ _ _ H1).
    + by rewrite final_value_cons, Hget, G1.
    + rewrite Hsig, (flag_signals _ _ _ _ _ H1), G1, <- app_assoc. cbn [changes].
      destruct (Bool.eqb b (get pl)) eqn:E; [|done].
      apply Bool.eqb_prop in E. by rewrite E.
    + congruence.
    + by transitivity s1.
Qed.

(** For any sequence of sets of a notifying property: the property ends
    at the last value set; the signals emitted are one notification per
    change of value ([changes]), [n] of them, whose values alternate
    starting from the negation of the initial value; the final value is
    the initial one negated [n] times; nothing else of the plugin's
    private state or of the store changes. *)
Lemma run_sets_notifications bs pl s :
  exists pl' s' n, run_sets setter bs pl s = Ok (pl', s') /\
    get pl' = final_value (get pl) bs /\
    st_signals s' = st_signals s ++ changes changed (get pl) bs /\
    changes changed (get pl) bs = map changed (alternating (negb (get pl)) n) /\
    get pl' = Nat.iter n negb (get pl) /\
    _p pl' = _p pl /\ same_but_signals s s'.
Proof.
  destruct (run_sets_changes bs pl s) as (pl' & s' & Hrun & Hget & Hsig & Hp & Hsame).
  destruct (changes_alternating changed (get pl) bs) as [Ha Hf].
  exists pl', s', (length (changes changed (get pl) bs)). split_and!; try done.
  by rewrite Hget, Hf.
Qed.

End FlagClient.

(** A property every single set preserves holds after a run of sets. *)
Lemma run_sets_preserves (setter : bool -> QGCCorePlugin -> M QGCCorePlugin)
    (P : QGCCorePlugin -> Prop) :
  (forall b pl s pl' s', setter b pl s = Ok (pl', s') -> P pl -> P pl') ->
  forall bs pl s pl' s', run_sets setter bs pl s = Ok (pl', s') -> P pl -> P pl'.
Proof.
  intros Hstep bs. induction bs as [|b bs IH]; intros pl s pl' s' Hrun HP.
  - by injection Hrun as <- _.
  - cbn [run_sets] in Hrun. unfold bind in Hrun.
    destruct (setter b pl s) as [[pl1 s1]|u] eqn:E; [|done]. eapply IH; [exact Hrun|].
    by eapply Hstep.
Qed.

(** ** Both setters implement the interface *)

#[export] Instance touchAreas_flag :
  NotifyingFlag _showTouchAreas setShowTouchAreas showTouchAreasChanged.
Proof.
  split.
  - intros b pl s. unfold setShowTouchAreas.
    destruct (Bool.eqb b (_showTouchAreas pl)); simpl; by eexists _, _.
  - intros b pl s pl' s'. unfold setShowTouchAreas.
    destruct (Bool.eqb b (_showTouchAreas pl)) eqn:E; run_M; intros [= <- <-]; [|done].
    symmetry. by apply Bool.eqb_prop.
  - intros b pl s pl' s'. unfold setShowTouchAreas.
    destruct (Bool.eqb b (_showTouchAreas pl)) eqn:E; run_M; intros [= <- <-];
      [by rewrite app_nil_r|done].
  - intros b pl s pl' s'. unfold setShowTouchAreas.
    destruct (Bool.eqb b (_showTouchAreas pl)); run_M; intros [= <- <-]; done.
Qed.

#[export] Instance advancedUI_flag :
  NotifyingFlag _showAdvancedUI setShowAdvancedUI showAdvancedUIChanged.
Proof.
  split.
  - intros b pl s. unfold setShowAdvancedUI.
    destruct (Bool.eqb b (_showAdvancedUI pl)); simpl; by eexists _, _.
  - intros b pl s pl' s'. unfold setShowAdvancedUI.
    destruct (Bool.eqb b (_showAdvancedUI pl)) eqn:E; run_M; intros [= <- <-]; [|done].
    symmetry. by apply Bool.eqb_prop.
  - intros b pl s pl' s'. unfold setShowAdvancedUI.
    destruct (Bool.eqb b (_showAdvancedUI pl)) eqn:E; run_M; intros [= <- <-];
      [by rewrite app_nil_r|done].
  - intros b pl s pl' s'. unfold setShowAdvancedUI.
    destruct (Bool.eqb b (_showAdvancedUI pl)); run_M; intros [= <- <-]; done.
Qed.

Lemma setShowAdvancedUI_touch b pl s pl' s' :
  setShowAdvancedUI b pl s = Ok (pl', s') -> _showTouchAreas pl' = _showTouchAreas pl.
Proof. unfold setShowAdvancedUI. destruct (Bool.eqb _ _); run_M; by intros [= <- _]. Qed.

Lemma setShowTouchAreas_advanced b pl s pl' s' :
  setShowTouchAreas b pl s = Ok (pl', s') -> _showAdvancedUI pl' = _showAdvancedUI pl.
Proof. unfold setShowTouchAreas. destruct (Bool.eqb _ _); run_M; by intros [= <- _]. Qed.

(** C10: After any sequence of [setShowAdvancedUI(b1); ...; setShowAdvancedUI(bn)]
    the flag holds the last value set ([bn], or the initial value when
    there is none), and [showAdvancedUIChanged] was emitted exactly at
    the changes of the flag, one signal carrying each new value
    ([changes]).  So the emitted values alternate starting from the
    negation of the initial value, and the flag ends as the initial value
    negated once per signal.  The touch-area flag, the private state and
    the free store are not touched. *)
Theorem setShowAdvancedUI_notifications bs pl s :
  exists pl' s' n, run_sets setShowAdvancedUI bs pl s = Ok (pl', s') /\
    _showAdvancedUI pl' = last bs (_showAdvancedUI pl) /\
    st_signals s' = st_signals s ++ changes showAdvancedUIChanged (_showAdvancedUI pl) bs /\
    changes showAdvancedUIChanged (_showAdvancedUI pl) bs = map showAdvancedUIChanged (alternating (negb (_showAdvancedUI pl)) n) /\
    _showAdvancedUI pl' = Nat.iter n negb (_showAdvancedUI pl) /\
    _showTouchAreas pl' = _showTouchAreas pl /\ _p pl' = _p pl /\ same_but_signals s s'.
Proof.
  destruct (@run_sets_notifications _ setShowAdvancedUI _ _ bs pl s)
    as (pl' & s' & n & Hrun & Hlast & Hsig & Halt & Hget & Hp & Hs).
  exists pl', s', n. split_and!; try done.
  by apply (run_sets_preserves setShowAdvancedUI (fun q => _showTouchAreas q = _showTouchAreas pl)
              (fun b q s q' s' H E => eq_trans (setShowAdvancedUI_touch b q s q' s' H) E)
              bs pl s pl' s' Hrun).
Qed.

(** C11: Likewise, after any sequence of [setShowTouchAreas] calls the
    flag holds the last value set, [showTouchAreasChanged] was emitted
    exactly at the changes of the flag with the new value, so with
    alternating values, and the advanced-mode flag is untouched. *)
Theorem setShowTouchAreas_notifications bs pl s :
  exists pl' s' n, run_sets setShowTouchAreas bs pl s = Ok (pl', s') /\
    _showTouchAreas pl' = last bs (_showTouchAreas pl) /\
    st_signals s' = st_signals s ++ changes showTouchAreasChanged (_showTouchAreas pl) bs /\
    changes showTouchAreasChanged (_showTouchAreas pl) bs = map showTouchAreasChanged (alternating (negb (_showTouchAreas pl)) n) /\
    _showTouchAreas pl' = Nat.iter n negb (_showTouchAreas pl) /\
    _showAdvancedUI pl' = _showAdvancedUI pl /\ _p pl' = _p pl /\ same_but_signals s s'.
Proof.
  destruct (@run_sets_notifications _ setShowTouchAreas _ _ bs pl s)
    as (pl' & s' & n & Hrun & Hlast & Hsig & Halt & Hget & Hp & Hs).
  exists pl', s', n. split_and!; try done.
  by apply (run_sets_preserves setShowTouchAreas (fun q => _showAdvancedUI q = _showAdvancedUI pl)
              (fun b q s q' s' H E => eq_trans (setShowTouchAreas_advanced b q s q' s' H) E)
              bs pl s pl' s' Hrun).
Qed.

(** C19: Setting a flag and then setting it back to its old value is a
    round trip: the plugin is restored exactly and the store is the same
    apart from its signals, which gain nothing when the first set changed
    nothing, and otherwise exactly the two notifications, the new value
    then the old one.  This holds for both [setShowAdvancedUI] (entering
    and leaving advanced mode) and [setShowTouchAreas]. *)
Theorem setShowFlags_roundtrip b pl s :
  (exists pl1 s1 s2,
    setShowAdvancedUI b pl s = Ok (pl1, s1) /\
    setShowAdvancedUI (_showAdvancedUI pl) pl1 s1 = Ok (pl, s2) /\
    same_but_signals s s2 /\
    st_signals s2 = st_signals s ++
      (if Bool.eqb b (_showAdvancedUI pl) then []
       else [showAdvancedUIChanged b; showAdvancedUIChanged (_showAdvancedUI pl)])) /\
  (exists pl1 s1 s2,
    setShowTouchAreas b pl s = Ok (pl1, s1) /\
    setShowTouchAreas (_showTouchAreas pl) pl1 s1 = Ok (pl, s2) /\
    same_but_signals s s2 /\
    st_signals s2 = st_signals s ++
      (if Bool.eqb b (_showTouchAreas pl) then []
       else [showTouchAreasChanged b; showTouchAreasChanged (_showTouchAreas pl)])).
Proof.
  destruct pl as [a t p ta ad]; unfold setShowAdvancedUI, setShowTouchAreas.
  destruct b, ta, ad; run_M; split; eexists _, _, _; split_and!;
    try reflexivity; try (by repeat split); cbn; by rewrite ?app_nil_r, <- ?app_assoc.
Qed.
