(* ===== verification/Hooks.v ===== *)
(** The overridable hooks with their default answers (QGCCorePlugin.cc,
    lines 137-140 and 150-217): [defaultSettings], the settings-group
    visibility override, the per-setting metadata adjustment, the palette
    override, the advanced-mode warning and the default fields of the
    values widget.  None of them touches the plugin's state; the two that
    take a reference argument ([adjustSettingMetaData] and
    [valuesWidgetDefaultSettings]) return the updated argument.

    The theorems: the metadata adjustment as a decision table over the
    setting's name and the platform, with the setting always shown and its
    name kept; the values widget appends its three
    fields after whatever the caller's list held. *)

From stdpp Require Import base gmap strings list numbers.
From S2P Require Import Spec2Rocq QtTypes.

Section Hooks.
Context `{Translator}.

(** [int QGCCorePlugin::defaultSettings() { return 0; }] *)
Definition defaultSettings : Z := 0.

(** [bool overrideSettingsGroupVisibility(QString name)]: always show. *)
Definition overrideSettingsGroupVisibility (name : QString) : bool := true.

(** [bool adjustSettingMetaData(FactMetaData& metaData)]: the default of
    the indoor palette is 0 on mobile and 1 elsewhere; the default of the
    telemetry auto-save is false on mobile and true elsewhere; every
    setting is shown. *)
Definition adjustSettingMetaData (cfg : BuildConfig) (metaData : FactMetaData)
    : bool * FactMetaData :=
  if String.eqb (name metaData) indoorPaletteName then
    let outdoorPalette := if mobile cfg then QV_int 0 else QV_int 1 in
    (true, setRawDefaultValue outdoorPalette metaData)
  else if String.eqb (name metaData) telemetrySaveName then
    if mobile cfg then (true, setRawDefaultValue (QV_bool false) metaData)
    else (true, setRawDefaultValue (QV_bool true) metaData)
  else (true, metaData).

(** [void paletteOverride(QString colorName, PaletteColorInfo_t& colorInfo)]:
    leaves the colours as they are. *)
Definition paletteOverride (colorName : QString) (colorInfo : PaletteColorInfo_t)
    : PaletteColorInfo_t :=
  colorInfo.

(** [QString showAdvancedUIMessage() const]. *)
Definition showAdvancedUIMessage : QString :=
  tr ("WARNING: You are about to enter Advanced Mode. " ++
      "If used incorrectly, this may cause your vehicle to malfunction thus voiding your warranty. " ++
      "You should do so only if instructed by customer support. " ++
      "Are you sure you want to enable Advanced Mode?")%string.

(** [void valuesWidgetDefaultSettings(QStringList& largeValues, QStringList& smallValues)]:
    [largeValues << "Vehicle.altitudeRelative" << "Vehicle.groundSpeed"
                 << "Vehicle.flightTime";] *)
Definition valuesWidgetDefaultSettings (largeValues smallValues : QStringList)
    : QStringList * QStringList :=
  (qsl_append (qsl_append (qsl_append largeValues "Vehicle.altitudeRelative")
                          "Vehicle.groundSpeed") "Vehicle.flightTime",
   smallValues).

End Hooks.

Section HooksProofs.
Context `{Translator}.

Lemma name_setRawDefaultValue v m : name (setRawDefaultValue v m) = name m.
Proof. done. Qed.

Lemma setRawDefaultValue_twice v w m :
  setRawDefaultValue v (setRawDefaultValue w m) = setRawDefaultValue v m.
Proof. done. Qed.

#[local] Hint Rewrite name_setRawDefaultValue setRawDefaultValue_twice : qgc_rw.

Lemma name_adjust cfg md : name (snd (adjustSettingMetaData cfg md)) = name md.
Proof.
  unfold adjustSettingMetaData. repeat case_match; by rewrite ?name_setRawDefaultValue.
Qed.

(** Case analysis on the two name tests of [adjustSettingMetaData]. *)
Ltac adjust_cases md :=
  unfold adjustSettingMetaData; autorewrite with qgc_rw;
  destruct (String.eqb_spec (name md) indoorPaletteName);
  [|destruct (String.eqb_spec (name md) telemetrySaveName)];
  simpl; autorewrite with qgc_rw.

(** C15: [adjustSettingMetaData] as a decision table: it always answers
    "show the setting" and keeps the setting's name; the indoor-palette
    setting gets the raw default 0 on mobile and 1 elsewhere; the
    telemetry auto-save setting gets false on mobile and true elsewhere;
    every other setting is returned unchanged. *)
Theorem adjustSettingMetaData_table cfg md :
  fst (adjustSettingMetaData cfg md) = true /\
  name (snd (adjustSettingMetaData cfg md)) = name md /\
  (name md = indoorPaletteName ->
     fmd_rawDefaultValue (snd (adjustSettingMetaData cfg md))
     = QV_int (if mobile cfg then 0 else 1)) /\
  (name md = telemetrySaveName ->
     fmd_rawDefaultValue (snd (adjustSettingMetaData cfg md)) = QV_bool (negb (mobile cfg))) /\
  (name md <> indoorPaletteName -> name md <> telemetrySaveName ->
     snd (adjustSettingMetaData cfg md) = md).
Proof.
  adjust_cases md; destruct (mobile cfg); simpl; split_and!; try done;
    intros; simplify_eq; try done; by rewrite e in *.
Qed.

(** C16: [valuesWidgetDefaultSettings] appends its three fields, in
    order, after whatever the caller's [largeValues] already held (it does
    not clear it), and leaves [smallValues] unchanged. *)
Theorem valuesWidgetDefaultSettings_appends large small :
  valuesWidgetDefaultSettings large small
  = (large ++ ["Vehicle.altitudeRelative"; "Vehicle.groundSpeed"; "Vehicle.flightTime"], small).
Proof. unfold valuesWidgetDefaultSettings, qsl_append. by rewrite <- !app_assoc. Qed.

End HooksProofs.
