(* ===== verification/RootWindow.v ===== *)
(** The two entry points that talk to the QML engine (QGCCorePlugin.cc,
    lines 92-98 and 219-227): [setToolbox], which sets the toolbox of the
    [QGCTool] base, keeps the plugin in C++ ownership and registers the two
    uncreatable QML types, and [createRootWindow], which allocates a
    [QQmlApplicationEngine], adds the import path, sets the two context
    properties and loads the main window.

    The theorems: [createRootWindow] returns a fresh engine, owned by the
    caller, whose calls are exactly the four of the source in their order
    (so both context properties are set before the main window is loaded,
    which its bindings need) and which leaves every other object alone;
    [setToolbox] registers the two types, in order, and pins the plugin in
    C++ ownership. *)

From stdpp Require Import base gmap strings list numbers.
From S2P Require Import Spec2Rocq QtTypes Runtime PluginState.

(** [QGCTool::setToolbox(toolbox)]: the base class keeps the pointer. *)
Definition set_toolbox (toolbox : N) (pl : QGCCorePlugin) : QGCCorePlugin :=
  mkPlugin (_app pl) toolbox (_p pl) (_showTouchAreas pl) (_showAdvancedUI pl).

Definition reg_QGCCorePlugin : QmlTypeReg :=
  mkQmlTypeReg "QGCCorePlugin" "QGroundControl.QGCCorePlugin" 1 0 "QGCCorePlugin" "Reference only".
Definition reg_QGCOptions : QmlTypeReg :=
  mkQmlTypeReg "QGCOptions" "QGroundControl.QGCOptions" 1 0 "QGCOptions" "Reference only".

(** [void QGCCorePlugin::setToolbox(QGCToolbox* toolbox)]; [self] is [this]. *)
Definition setToolbox (toolbox self : N) (pl : QGCCorePlugin) : M QGCCorePlugin :=
  let pl := set_toolbox toolbox pl in
  setObjectOwnership self CppOwnership ;;
  qmlRegister reg_QGCCorePlugin ;;
  qmlRegister reg_QGCOptions ;;
  ret pl.

Definition mainWindowUrl : QUrl := mkQUrl "qrc:/qml/MainWindowNative.qml".

(** [QQmlApplicationEngine* QGCCorePlugin::createRootWindow(QObject* parent)]. *)
Definition createRootWindow (parent : option N) : M N :=
  do pEngine <- cpp_new (OEngine (mkEngine parent []));
  engine_call pEngine (addImportPath "qrc:/qml") ;;
  do jm <- gets st_joystickManager;
  engine_call pEngine (setContextProperty "joystickManager" (QV_qobject jm)) ;;
  do dm <- gets st_debugMessageModel;
  engine_call pEngine (setContextProperty "debugMessageModel" (QV_qobject dm)) ;;
  engine_call pEngine (load mainWindowUrl) ;;
  ret pEngine.

(** The calls [createRootWindow] makes on its engine, in a store [s]. *)
Definition root_window_calls (s : Store) : list EngineCall :=
  [addImportPath "qrc:/qml";
   setContextProperty "joystickManager" (QV_qobject (st_joystickManager s));
   setContextProperty "debugMessageModel" (QV_qobject (st_debugMessageModel s));
   load mainWindowUrl].

Lemma createRootWindow_run parent s :
  createRootWindow parent s
  = Ok (st_next s,
        with_heap (<[st_next s := OEngine (mkEngine parent (root_window_calls s))]> (st_heap s))
                  (st_next s + 1)%N s).
Proof.
  destruct s as [h n sg q ow j dm]. unfold createRootWindow, root_window_calls.
  cbv beta iota zeta delta [bind ret gets cpp_new engine_call with_heap st_heap st_next
    st_signals st_qmlTypes st_ownership st_joystickManager st_debugMessageModel
    eng_parent eng_calls].
  rewrite !lookup_insert_eq. cbn [app]. by rewrite !insert_insert_eq.
Qed.

(** C12: [createRootWindow(parent)] allocates one engine at an address
    that was not live, with [parent] as its QObject parent, and makes on
    it exactly the calls of the source in their order: the import path,
    the [joystickManager] and [debugMessageModel] context properties, the
    load of the main window; it frees and changes no other object and
    emits no signal. *)
Theorem createRootWindow_spec parent s :
  store_wf s ->
  st_heap s !! st_next s = None /\
  createRootWindow parent s
  = Ok (st_next s,
        with_heap (<[st_next s := OEngine (mkEngine parent (root_window_calls s))]> (st_heap s))
                  (st_next s + 1)%N s).
Proof. intros Hwf. split; [by apply cpp_new_fresh|apply createRootWindow_run]. Qed.

(** C13: In the engine [createRootWindow] returns, every context
    property is set before the main window is loaded, and the load is the
    last call, of the main window. *)
Theorem createRootWindow_context_before_load parent s l s' e i j p v u :
  createRootWindow parent s = Ok (l, s') -> st_heap s' !! l = Some (OEngine e) ->
  eng_calls e !! i = Some (setContextProperty p v) -> eng_calls e !! j = Some (load u) ->
  i < j /\ j = length (eng_calls e) - 1 /\ u = mainWindowUrl.
Proof.
  rewrite createRootWindow_run. intros [= <- <-]. simpl. rewrite lookup_insert_eq.
  intros [= <-]. unfold root_window_calls. simpl. intros Hi Hj.
  destruct j as [|[|[|[|j]]]]; simplify_eq/=; try by rewrite lookup_nil in Hj.
  destruct i as [|[|[|[|i]]]]; simplify_eq/=; try by rewrite lookup_nil in Hi.
  all: split_and!; done || lia.
Qed.

Lemma setToolbox_run toolbox self pl s :
  exists s', setToolbox toolbox self pl s = Ok (set_toolbox toolbox pl, s') /\
    st_ownership s' !! self = Some CppOwnership /\
    st_qmlTypes s' = st_qmlTypes s ++ [reg_QGCCorePlugin; reg_QGCOptions] /\
    st_heap s' = st_heap s /\ st_next s' = st_next s /\ st_signals s' = st_signals s.
Proof.
  eexists. split; [reflexivity|]. simpl. split_and!; [apply lookup_insert_eq| |done..].
  by rewrite <- app_assoc.
Qed.

(** C14: [setToolbox] stores the toolbox, pins the plugin in C++
    ownership (so that QML never deletes it), and registers the two QML
    types [QGCCorePlugin] and [QGCOptions], uncreatable from QML, in
    this order; the free store and the signals are untouched. *)
Theorem setToolbox_spec toolbox self pl s :
  exists s', setToolbox toolbox self pl s = Ok (set_toolbox toolbox pl, s') /\
    st_ownership s' !! self = Some CppOwnership /\
    st_qmlTypes s' = st_qmlTypes s ++ [reg_QGCCorePlugin; reg_QGCOptions] /\
    st_heap s' = st_heap s /\ st_next s' = st_next s /\ st_signals s' = st_signals s.
Proof. apply setToolbox_run. Qed.

(** ** Witnesses: a root window created in the empty store *)

Lemma createRootWindow_spec_witness :
  store_wf empty_store /\
  st_heap empty_store !! st_next empty_store = None /\
  createRootWindow None empty_store
  = Ok (st_next empty_store,
        with_heap (<[st_next empty_store := OEngine (mkEngine None (root_window_calls empty_store))]>
                     (st_heap empty_store)) (st_next empty_store + 1)%N empty_store).
Proof.
  pose proof empty_store_wf as Hs.
  split; [exact Hs|]. exact (createRootWindow_spec None empty_store Hs).
Defined.

Lemma createRootWindow_context_before_load_witness :
  createRootWindow None empty_store
  = Ok (0%N, with_heap {[0%N := OEngine (mkEngine None (root_window_calls empty_store))]} 1%N
                       empty_store) /\
  1 < 3 /\ 3 = length (root_window_calls empty_store) - 1 /\ mainWindowUrl = mainWindowUrl.
Proof.
  assert (Hr : createRootWindow None empty_store
    = Ok (0%N, with_heap {[0%N := OEngine (mkEngine None (root_window_calls empty_store))]} 1%N
                         empty_store)) by (rewrite createRootWindow_run; reflexivity).
  split; [exact Hr|].
  refine (createRootWindow_context_before_load None empty_store 0%N _
            (mkEngine None (root_window_calls empty_store)) 1 3
            "joystickManager" (QV_qobject 1000%N) mainWindowUrl Hr _ _ _).
  - apply lookup_insert_eq.
  - reflexivity.
  - reflexivity.
Defined.
