(* ===== verification/Plugin.v ===== *)
(** The plugin as a whole: its life from [QGCCorePlugin(app, toolbox)]
    through any sequence of client calls to [~QGCCorePlugin()].

    [Call] lists what a client can do with a live plugin: call one of the
    state-changing methods, or write through the [QVariantList&] that
    [settingsPages()] returns (the list is shared with the plugin, and
    custom plugins append their own pages to it).  [exec] runs a call and
    [reachable] is the step relation's reflexive-transitive closure from
    construction.  [plugin_inv] is the invariant of reachable states,
    proved by rule induction ([reachable_states_invariant]); the
    destruction theorem built on it is in [Members]. *)

From stdpp Require Import base gmap strings list numbers.
From S2P Require Import Spec2Rocq QtTypes Runtime PluginState SettingsPages Options UiFlags.
From S2P Require Import RootWindow.

(** The calls a client makes on a live plugin. *)
Inductive Call :=
  | CallSettingsPages
  | CallOptions
  | CallSetShowTouchAreas (b : bool)
  | CallSetShowAdvancedUI (b : bool)
  | CallSetToolbox (toolbox self : N)
  | CallCreateRootWindow (parent : option N)
  | CallEditPages (f : QVariantList -> QVariantList).

(** A write through the reference [settingsPages()] returned. *)
Definition edit_pages (f : QVariantList -> QVariantList) (pl : QGCCorePlugin) : QGCCorePlugin :=
  set_p (set_settingsList (f (settingsList (_p pl))) (_p pl)) pl.

Definition is_engine (o : Obj) : Prop :=
  match o with OEngine _ => True | _ => False end.

Section Lifecycle.
Context `{Translator}.
Variable cfg : BuildConfig.

Definition exec (c : Call) (pl : QGCCorePlugin) : M QGCCorePlugin :=
  match c with
  | CallSettingsPages => do r <- settingsPages cfg pl; ret (snd r)
  | CallOptions => do r <- options pl; ret (snd r)
  | CallSetShowTouchAreas b => setShowTouchAreas b pl
  | CallSetShowAdvancedUI b => setShowAdvancedUI b pl
  | CallSetToolbox toolbox self => setToolbox toolbox self pl
  | CallCreateRootWindow parent => do _ <- createRootWindow parent; ret pl
  | CallEditPages f => ret (edit_pages f pl)
  end.

(** [c1; c2; ...] on one plugin. *)
Fixpoint run_calls (cs : list Call) (pl : QGCCorePlugin) : M QGCCorePlugin :=
  match cs with
  | [] => ret pl
  | c :: cs => do pl <- exec c pl; run_calls cs pl
  end.

(** The states a plugin constructed in store [s0] can reach. *)
Inductive reachable (s0 : Store) : QGCCorePlugin -> Store -> Prop :=
  | reach_ctor app toolbox : reachable s0 (QGCCorePlugin_ctor app toolbox) s0
  | reach_step c pl s pl' s' :
      reachable s0 pl s -> exec c pl s = Ok (pl', s') -> reachable s0 pl' s'.

(** The invariant of reachable states, relative to the store [s0] the
    plugin was constructed in. *)
Record plugin_inv (s0 : Store) (pl : QGCCorePlugin) (s : Store) : Prop := {
  pi_store : store_wf s;
  pi_priv : priv_wf cfg (_p pl) (st_heap s);
  pi_next : (st_next s0 <= st_next s)%N;
  pi_keep : forall l o, st_heap s0 !! l = Some o -> st_heap s !! l = Some o;
  pi_owned_new : forall l, l ∈ owned cfg (_p pl) -> st_heap s0 !! l = None;
  pi_live : forall l o, st_heap s !! l = Some o ->
    st_heap s0 !! l = Some o \/ l ∈ owned cfg (_p pl) \/ is_engine o
}.

End Lifecycle.

Section LifecycleProofs.
Context `{Translator}.
Variable cfg : BuildConfig.

#[local] Hint Resolve pi_store pi_priv : qgc.

Lemma inv_init s0 app toolbox :
  store_wf s0 -> plugin_inv cfg s0 (QGCCorePlugin_ctor app toolbox) s0.
Proof.
  intros Hs. assert (Ho : owned cfg (_p (QGCCorePlugin_ctor app toolbox)) = []).
  { unfold owned, dtor_fields, dtor_page_fields. by destruct (qt_debug cfg). }
  split; [done|apply ctor_wf|lia|done|rewrite Ho; set_solver|naive_solver].
Qed.

(** Addresses at or above the next free one were not live at construction. *)
Lemma inv_fresh_above s0 pl s a :
  plugin_inv cfg s0 pl s -> (st_next s <= a)%N -> st_heap s0 !! a = None.
Proof.
  intros Hi Ha. destruct (st_heap s0 !! a) as [o|] eqn:E; [|done].
  apply (pi_keep _ _ _ _ Hi), (pi_store _ _ _ _ Hi) in E. simpl in E. lia.
Qed.

Lemma inv_keep_insert s0 pl s l o x :
  plugin_inv cfg s0 pl s -> st_heap s0 !! l = Some o ->
  <[st_next s := x]> (st_heap s) !! l = Some o.
Proof.
  intros Hi Hl. rewrite lookup_insert_ne; [by apply (pi_keep _ _ _ _ Hi)|].
  intros <-. rewrite (inv_fresh_above s0 pl s (st_next s) Hi) in Hl; [done|lia].
Qed.

(** A call that keeps the heap and the pointer members keeps the invariant. *)
Lemma inv_frame s0 pl s pl' s' :
  plugin_inv cfg s0 pl s -> st_heap s' = st_heap s -> st_next s' = st_next s ->
  owned cfg (_p pl') = owned cfg (_p pl) -> priv_wf cfg (_p pl') (st_heap s) ->
  plugin_inv cfg s0 pl' s'.
Proof.
  intros [Hs Hp Hn Hk Ho Hl] Eh En Eo Hp'. split.
  - by eauto with qgc.
  - by rewrite Eh.
  - by rewrite En.
  - intros l o. rewrite Eh. apply Hk.
  - rewrite Eo. apply Ho.
  - rewrite Eh, Eo. apply Hl.
Qed.


Lemma inv_settingsPages s0 pl s r pl' s' :
  plugin_inv cfg s0 pl s -> settingsPages cfg pl s = Ok ((r, pl'), s') ->
  plugin_inv cfg s0 pl' s'.
Proof.
  intros Hi. destruct (pGeneral (_p pl)) as [g|] eqn:Hg.
  { rewrite (settingsPages_cached_run cfg pl s g Hg). by intros [= _ <- <-]. }
  intros Hrun. pose proof (settingsPages_p_None cfg _ s Hg) as E.
  destruct (settingsPages_p_preserves_wf cfg (_p pl) s _ _ (pi_store _ _ _ _ Hi) (pi_priv _ _ _ _ Hi) E)
    as [Hs1 Hp1].
  unfold settingsPages in Hrun. rewrite (bind_Ok _ _ _ _ _ E) in Hrun.
  apply Ok_inj, pair_equal_spec in Hrun as [[_ <-]%pair_equal_spec <-].
  pose proof (owned_no_pages cfg _ (no_pages_of_wf _ _ _ (pi_priv _ _ _ _ Hi) Hg)) as Hown.
  split; cbn [set_p _p]; [done|done| | | |].
  - pose proof (pi_next _ _ _ _ Hi). simpl. lia.
  - intros l o Hl. apply (alloc_seq_preserves s); [apply (pi_store _ _ _ _ Hi)|].
    by apply (pi_keep _ _ _ _ Hi).
  - rewrite owned_fill_pages. intros l [Hl%elem_of_addrs|Hl]%elem_of_app.
    + apply (inv_fresh_above _ _ _ _ Hi). lia.
    + apply (pi_owned_new _ _ _ _ Hi). by rewrite Hown.
  - rewrite owned_fill_pages. intros l o Hl. cbn [with_heap st_heap] in Hl.
    destruct (decide (l ∈ addrs (st_next s) (length (default_pages cfg)))) as [Ha|Ha];
      [right; left; set_solver|].
    rewrite lookup_alloc_seq_out in Hl.
    2:{ rewrite elem_of_addrs in Ha. rewrite length_map. lia. }
    destruct (pi_live _ _ _ _ Hi l o Hl) as [?|[Ho|?]]; [by left| |by right; right].
    right; left. rewrite Hown in Ho. set_solver.
Qed.

Lemma inv_options s0 pl s r pl' s' :
  plugin_inv cfg s0 pl s -> options pl s = Ok ((r, pl'), s') -> plugin_inv cfg s0 pl' s'.
Proof.
  intros Hi Hrun. destruct (options_preserves_wf cfg pl s r pl' s' (pi_store _ _ _ _ Hi)
    (pi_priv _ _ _ _ Hi) Hrun) as [Hs' Hp']. revert Hrun Hs' Hp'.
  unfold options. destruct (defaultOptions (_p pl)) as [l|] eqn:E.
  { erewrite bind_Ok by (by eapply options_p_Some). intros [= _ <- <-]. cbn [snd].
    by rewrite set_p_id. }
  erewrite bind_Ok by (by apply options_p_None). intros [= _ <- <-] Hs' Hp'.
  cbn [set_p _p snd] in *. split; [done|done| | | |]; simpl.
  - pose proof (pi_next cfg s0 pl s Hi). lia.
  - intros l' o. by eapply inv_keep_insert.
  - rewrite owned_set_defaultOptions by done. intros a [Ha|Ha%list_elem_of_singleton]%elem_of_app.
    + by apply (pi_owned_new _ _ _ _ Hi).
    + subst a. apply (inv_fresh_above _ _ _ _ Hi). lia.
  - rewrite owned_set_defaultOptions by done. intros a o.
    destruct (decide (a = st_next s)) as [->|Hne]; [set_solver|].
    rewrite lookup_insert_ne by done. intros Ha.
    destruct (pi_live _ _ _ _ Hi a o Ha) as [?|[?|?]]; [by left|set_solver|by right; right].
Qed.

Lemma inv_createRootWindow s0 pl s parent l s' :
  plugin_inv cfg s0 pl s -> createRootWindow parent s = Ok (l, s') -> plugin_inv cfg s0 pl s'.
Proof.
  intros Hi. rewrite createRootWindow_run. intros [= <- <-].
  split; simpl.
  - by eauto with qgc.
  - by eauto with qgc.
  - pose proof (pi_next cfg s0 pl s Hi). lia.
  - intros l' o. by eapply inv_keep_insert.
  - apply (pi_owned_new _ _ _ _ Hi).
  - intros a o. destruct (decide (a = st_next s)) as [->|Hne].
    + rewrite lookup_insert_eq. intros [= <-]. by right; right.
    + rewrite lookup_insert_ne by done. apply (pi_live _ _ _ _ Hi).
Qed.

Lemma inv_exec s0 c pl s pl' s' :
  plugin_inv cfg s0 pl s -> exec cfg c pl s = Ok (pl', s') -> plugin_inv cfg s0 pl' s'.
Proof.
  intros Hi. destruct c as [| |b|b|toolbox self|parent|f]; cbn [exec].
  - unfold bind. destruct (settingsPages cfg pl s) as [[[r q] s1]|] eqn:E; [|done].
    intros [= <- <-]. by eapply inv_settingsPages.
  - unfold bind. destruct (options pl s) as [[[r q] s1]|] eqn:E; [|done].
    intros [= <- <-]. by eapply inv_options.
  - intros Hrun. destruct (flag_frame _ _ _ _ _ Hrun) as [Hp (Eh & En & _)].
    eapply inv_frame; [exact Hi|done|done|by rewrite Hp|rewrite Hp; by eauto with qgc].
  - intros Hrun. destruct (flag_frame _ _ _ _ _ Hrun) as [Hp (Eh & En & _)].
    eapply inv_frame; [exact Hi|done|done|by rewrite Hp|rewrite Hp; by eauto with qgc].
  - intros Hrun. destruct (setToolbox_run toolbox self pl s) as (s1 & E & _ & _ & Eh & En & _).
    rewrite E in Hrun. injection Hrun as <- <-.
    eapply inv_frame; [exact Hi|done|done|done|apply (pi_priv _ _ _ _ Hi)].
  - unfold bind. destruct (createRootWindow parent s) as [[l s1]|] eqn:E; [|done].
    intros [= <- <-]. by eapply inv_createRootWindow.
  - intros [= <- <-]. eapply inv_frame; [exact Hi|done|done| |].
    + apply owned_set_settingsList.
    + apply priv_wf_set_settingsList. by eauto with qgc.
Qed.

(** Every call returns. *)
Lemma exec_total c pl s : exists pl' s', exec cfg c pl s = Ok (pl', s').
Proof.
  destruct c as [| |b|b|toolbox self|parent|f]; cbn [exec].
  - destruct (settingsPages_total cfg pl s) as (r & q & s1 & E).
    rewrite (bind_Ok _ _ _ _ _ E). by eexists _, _.
  - destruct (options_total pl s) as (r & q & s1 & E). rewrite (bind_Ok _ _ _ _ _ E). by eexists _, _.
  - apply flag_total.
  - apply flag_total.
  - destruct (setToolbox_run toolbox self pl s) as (s1 & E & _). by eexists _, _.
  - rewrite (bind_Ok _ _ _ _ _ (createRootWindow_run parent s)). by eexists _, _.
  - by eexists _, _.
Qed.

Lemma run_calls_reachable s0 cs pl s pl' s' :
  reachable cfg s0 pl s -> run_calls cfg cs pl s = Ok (pl', s') -> reachable cfg s0 pl' s'.
Proof.
  revert pl s. induction cs as [|c cs IH]; intros pl s Hr Hrun; cbn [run_calls] in Hrun.
  - by injection Hrun as <- <-.
  - unfold bind in Hrun. destruct (exec cfg c pl s) as [[pl1 s1]|] eqn:E; [|done].
    eapply IH; [|exact Hrun]. by eapply reach_step.
Qed.

Lemma reachable_inv s0 pl s :
  store_wf s0 -> reachable cfg s0 pl s -> plugin_inv cfg s0 pl s.
Proof.
  intros Hs0. induction 1 as [app toolbox|c pl s pl' s' _ IH Hexec].
  - by apply inv_init.
  - by eapply inv_exec.
Qed.

(** C17: Every state a plugin reaches from its construction, through any
    sequence of client calls, satisfies the invariant [plugin_inv]: the
    members are distinct live objects allocated by the plugin, the objects
    that existed before are untouched, and every live object is one of
    those, an owned one, or an engine handed out. *)
Theorem reachable_states_invariant s0 pl s :
  store_wf s0 -> reachable cfg s0 pl s -> plugin_inv cfg s0 pl s.
Proof. apply reachable_inv. Qed.

End LifecycleProofs.

(** ** Witness: a plugin used for a while, then destroyed *)

Section Witnesses.
#[local] Existing Instance untranslated.

(** Pages and options made, a window created, the page list cleared
    through its reference and asked for again, advanced mode left. *)
Definition demo_calls : list Call :=
  [CallSettingsPages; CallOptions; CallCreateRootWindow None; CallEditPages (fun _ => []);
   CallSettingsPages; CallSetShowAdvancedUI false; CallSetToolbox 2 3].

Definition demo_state : QGCCorePlugin * Store :=
  match run_calls debug_build demo_calls (QGCCorePlugin_ctor 1 2) empty_store with
  | Ok r => r
  | UB _ => (QGCCorePlugin_ctor 1 2, empty_store)
  end.

Lemma demo_reachable : reachable debug_build empty_store demo_state.1 demo_state.2.
Proof.
  apply (run_calls_reachable debug_build empty_store demo_calls _ _ _ _ (reach_ctor _ _ 1 2)).
  vm_compute. reflexivity.
Qed.

Lemma reachable_states_invariant_witness :
  store_wf empty_store /\ reachable debug_build empty_store demo_state.1 demo_state.2 /\
  plugin_inv debug_build empty_store demo_state.1 demo_state.2.
Proof.
  pose proof empty_store_wf as Hwf.
  pose proof demo_reachable as Hr.
  split; [exact Hwf|]. split; [exact Hr|].
  exact (reachable_states_invariant debug_build empty_store _ _ Hwf Hr).
Defined.

End Witnesses.
