(* ===== verification/Members.v ===== *)
(** The pointer members of [QGCCorePlugin_p] over a plugin's whole life
    (QGCCorePlugin.cc, lines 64-74, 100-148).

    Every call on a live plugin has one of three effects on the members
    and the free store ([exec_shape]).  The first call of
    [settingsPages()] fills the page members.  The first call of
    [options()] fills [defaultOptions].  Any other call leaves the members
    alone.  No call frees or overwrites a live object.

    The theorems of this file follow from that case analysis:
    - a typing invariant: each non-NULL member points to an object of its
      declared class, namely the very descriptor it was created with, so
      the descriptors are immutable, as the spec says;
    - liveness: from any reachable state, [settingsPages()] then
      [options()] fill every member the build has, and from then on no
      call changes any member;
    - a bound on the plugin's footprint: however long it runs, at most
      [length (default_pages cfg) + 1] objects (8 in a debug build, 6 in
      a release build) are allocated by the plugin besides the engines it
      hands out;
    - destruction after any calls ([destroy_after_any_run]): no undefined
      behaviour, and the heap left is the one before, restricted to the
      objects that predate the plugin and the engines ([survivors]); the
      typing invariant is what shows that no engine is among the freed
      members. *)

From stdpp Require Import base gmap strings list numbers.
From S2P Require Import Spec2Rocq QtTypes Runtime PluginState SettingsPages Options UiFlags.
From S2P Require Import RootWindow Plugin.

Section Members.
Context `{Translator}.

(** Each pointer member with the object its declared class and its
    initialiser give it: [QGCSettings*] members hold their page
    descriptor, [defaultOptions] a default [QGCOptions]. *)
Definition member_objs (p : QGCCorePlugin_p) : list (option N * Obj) :=
  [(pGeneral p, OSettings general_page); (pCommLinks p, OSettings commLinks_page);
   (pOfflineMaps p, OSettings offlineMaps_page); (pMAVLink p, OSettings mavlink_page);
   (pConsole p, OSettings console_page); (pMockLink p, OSettings mockLink_page);
   (pDebug p, OSettings debug_page); (defaultOptions p, OOptions QGCOptions_default)].

(** A member is well typed in [h] when it is NULL or points to its object. *)
Definition typed_at (h : gmap N Obj) (mo : option N * Obj) : Prop :=
  match mo.1 with
  | Some l => h !! l = Some mo.2
  | None => True
  end.

#[export] Instance typed_at_dec h mo : Decision (typed_at h mo).
Proof. unfold typed_at. destruct (mo.1); apply _. Defined.

Definition members_typed (p : QGCCorePlugin_p) (h : gmap N Obj) : Prop :=
  Forall (typed_at h) (member_objs p).

(** The member pointers alone. *)
Definition member_ptrs (p : QGCCorePlugin_p) : list (option N) := map fst (member_objs p).

End Members.

(** The page members a build has, in the order [settingsPages()] fills them. *)
Definition build_page_fields (cfg : BuildConfig) (p : QGCCorePlugin_p) : list (option N) :=
  [pGeneral p; pCommLinks p; pOfflineMaps p; pMAVLink p; pConsole p] ++
  (if qt_debug cfg then [pMockLink p; pDebug p] else []).

(** The pages are made all together: none, or all those of the build. *)
Definition pages_complete (cfg : BuildConfig) (p : QGCCorePlugin_p) : Prop :=
  pGeneral p = None \/ Forall is_Some (build_page_fields cfg p).

Section MembersInv.
Context `{Translator}.

(** The invariant of the members in reachable states. *)
Record members_inv (cfg : BuildConfig) (p : QGCCorePlugin_p) (h : gmap N Obj) : Prop := {
  mi_typed : members_typed p h;
  mi_complete : pages_complete cfg p
}.

End MembersInv.

#[export] Instance is_engine_dec o : Decision (is_engine o).
Proof. destruct o; simpl; apply _. Defined.

(** The objects of [s] that were not live in [s0] and are not engines. *)
Definition plugin_allocated (s0 s : Store) : gmap N Obj :=
  filter (fun lo => st_heap s0 !! lo.1 = None /\ ~ is_engine lo.2) (st_heap s).

(** The objects of [s] that were already live in [s0], or are engines. *)
Definition survivors (s0 s : Store) : gmap N Obj :=
  filter (fun lo => st_heap s0 !! lo.1 = Some lo.2 \/ is_engine lo.2) (st_heap s).

Section MembersProofs.
Context `{Translator}.
Variable cfg : BuildConfig.

Lemma typed_at_mono h h' mo : h ⊆ h' -> typed_at h mo -> typed_at h' mo.
Proof. intros Hsub. unfold typed_at. destruct (mo.1); [|done]. intros Hl. by eapply lookup_weaken. Qed.

Lemma members_typed_mono p h h' : h ⊆ h' -> members_typed p h -> members_typed p h'.
Proof. intros Hsub. apply Forall_impl. intros mo. by apply typed_at_mono. Qed.

Lemma alloc_seq_subseteq s xs : store_wf s -> st_heap s ⊆ alloc_seq (st_next s) xs (st_heap s).
Proof. intros Hs. apply map_subseteq_spec. intros l o. by apply alloc_seq_preserves. Qed.

Lemma insert_fresh_subseteq s o : store_wf s -> st_heap s ⊆ <[st_next s := o]> (st_heap s).
Proof. intros Hs. apply insert_subseteq. by apply cpp_new_fresh. Qed.


Lemma member_objs_set_settingsList l p : member_objs (set_settingsList l p) = member_objs p.
Proof. by destruct p. Qed.

(** The three shapes of a step: the members stay; the first
    [settingsPages()] fills the pages; the first [options()] fills
    [defaultOptions].  In each, the old heap is kept. *)
Lemma exec_shape s0 c pl s pl' s' :
  plugin_inv cfg s0 pl s -> exec cfg c pl s = Ok (pl', s') ->
  st_heap s ⊆ st_heap s' /\ (st_next s <= st_next s')%N /\
  (member_objs (_p pl') = member_objs (_p pl) \/
   (pGeneral (_p pl) = None /\ _p pl' = fill_pages cfg (st_next s) (_p pl) /\
    st_heap s' = alloc_seq (st_next s) (map OSettings (default_pages cfg)) (st_heap s)) \/
   (defaultOptions (_p pl) = None /\
    _p pl' = set_defaultOptions (Some (st_next s)) (_p pl) /\
    st_heap s' = <[st_next s := OOptions QGCOptions_default]> (st_heap s))).
Proof.
  intros Hi. pose proof (pi_store _ _ _ _ Hi) as Hs.
  destruct c as [| |b|b|toolbox self|parent|f]; cbn [exec].
  - unfold settingsPages. rewrite bind_assoc. destruct (pGeneral (_p pl)) as [g|] eqn:Hg.
    + rewrite (bind_Ok _ _ _ _ _ (settingsPages_p_Some cfg _ s g Hg)). cbn.
      rewrite set_p_id. intros [= <- <-]. by split_and!; [..|left].
    + rewrite (bind_Ok _ _ _ _ _ (settingsPages_p_None cfg _ s Hg)).
      intros Hrun. apply Ok_inj, pair_equal_spec in Hrun as [<- <-].
      split_and!; [exact (alloc_seq_subseteq s _ Hs)|simpl; lia|]. right; left. done.
  - unfold options. rewrite bind_assoc. destruct (defaultOptions (_p pl)) as [l|] eqn:E.
    + rewrite (bind_Ok _ _ _ _ _ (options_p_Some _ s l E)). cbn.
      rewrite set_p_id. intros [= <- <-]. by split_and!; [..|left].
    + rewrite (bind_Ok _ _ _ _ _ (options_p_None _ s E)).
      intros Hrun. apply Ok_inj, pair_equal_spec in Hrun as [<- <-].
      split_and!; [exact (insert_fresh_subseteq s _ Hs)|simpl; lia|]. by right; right.
  - intros Hrun. destruct (flag_frame _ _ _ _ _ Hrun) as [-> (-> & -> & _)].
    by split_and!; [..|left].
  - intros Hrun. destruct (flag_frame _ _ _ _ _ Hrun) as [-> (-> & -> & _)].
    by split_and!; [..|left].
  - destruct (setToolbox_run toolbox self pl s) as (s1 & E & _ & _ & Eh & En & _).
    rewrite E. intros [= <- <-]. rewrite Eh, En. by split_and!; [..|left].
  - rewrite (bind_Ok _ _ _ _ _ (createRootWindow_run parent s)).
    intros Hrun. apply Ok_inj, pair_equal_spec in Hrun as [<- <-].
    split_and!; [exact (insert_fresh_subseteq s _ Hs)|simpl; lia|]. by left.
  - intros [= <- <-]. split_and!; [done|done|left]. apply member_objs_set_settingsList.
Qed.

(** The objects [alloc_seq] stores are found at the addresses [addrs]. *)
Lemma lookup_alloc_seq_addrs n xs h i l :
  addrs n (length xs) !! i = Some l -> alloc_seq n xs h !! l = xs !! i.
Proof.
  revert n h i. induction xs as [|x xs IH]; intros n h i Hi; [done|].
  destruct i as [|i]; cbn [length addrs alloc_seq] in *.
  - injection Hi as <-. rewrite lookup_alloc_seq_out by lia. apply lookup_insert_eq.
  - by apply IH.
Qed.

(** The [i]-th new page member points to the [i]-th page. *)
Lemma typed_at_new n xs h i x :
  xs !! i = Some x ->
  typed_at (alloc_seq n (map OSettings xs) h) (nth_error (addrs n (length xs)) i, OSettings x).
Proof.
  intros Hx. unfold typed_at; cbn [fst snd]. rewrite nth_error_lookup.
  destruct (addrs n (length xs) !! i) as [l|] eqn:E; [|done].
  rewrite <- (length_map OSettings) in E. rewrite (lookup_alloc_seq_addrs _ _ _ _ _ E).
  by rewrite list_lookup_fmap, Hx.
Qed.

Lemma members_typed_fill_pages s p :
  store_wf s -> members_typed p (st_heap s) ->
  members_typed (fill_pages cfg (st_next s) p)
                (alloc_seq (st_next s) (map OSettings (default_pages cfg)) (st_heap s)).
Proof.
  intros Hs Ht. pose proof (members_typed_mono _ _ _ (alloc_seq_subseteq s
    (map OSettings (default_pages cfg)) Hs) Ht) as Ht'. clear Ht.
  unfold members_typed in *. rewrite Forall_forall in Ht'.
  destruct p as [g c o m co ml d sl opt]. unfold member_objs, fill_pages in *. cbv zeta.
  cbn [pGeneral pCommLinks pOfflineMaps pMAVLink pConsole pMockLink pDebug defaultOptions] in *.
  destruct (qt_debug cfg) eqn:Ed; repeat apply Forall_cons; try apply Forall_nil;
    try (apply Ht'; simpl; tauto);
    apply typed_at_new; unfold default_pages; by rewrite Ed.
Qed.

Lemma members_typed_set_defaultOptions s p :
  store_wf s -> members_typed p (st_heap s) -> defaultOptions p = None ->
  members_typed (set_defaultOptions (Some (st_next s)) p)
                (<[st_next s := OOptions QGCOptions_default]> (st_heap s)).
Proof.
  intros Hs Ht Hn. pose proof (members_typed_mono _ _ _ (insert_fresh_subseteq s
    (OOptions QGCOptions_default) Hs) Ht) as Ht'. clear Ht.
  unfold members_typed in *. rewrite Forall_forall in Ht'.
  destruct p as [g c o m co ml d sl opt]. unfold member_objs in *.
  cbn [pGeneral pCommLinks pOfflineMaps pMAVLink pConsole pMockLink pDebug defaultOptions] in *.
  repeat apply Forall_cons; try apply Forall_nil;
    try (apply Ht'; simpl; tauto).
  unfold typed_at. apply lookup_insert_eq.
Qed.

Lemma members_typed_exec s0 c pl s pl' s' :
  plugin_inv cfg s0 pl s -> members_typed (_p pl) (st_heap s) ->
  exec cfg c pl s = Ok (pl', s') -> members_typed (_p pl') (st_heap s').
Proof.
  intros Hi Ht Hrun. pose proof (pi_store _ _ _ _ Hi) as Hs.
  destruct (exec_shape s0 c pl s pl' s' Hi Hrun) as (Hsub & _ & [Hm|[(Hg & -> & ->)|(Hn & -> & ->)]]).
  - unfold members_typed in *. rewrite Hm. by eapply members_typed_mono.
  - by apply members_typed_fill_pages.
  - by apply members_typed_set_defaultOptions.
Qed.

Lemma member_objs_inj p p' :
  member_objs p' = member_objs p -> member_ptrs p' = member_ptrs p /\
  build_page_fields cfg p' = build_page_fields cfg p.
Proof. destruct p, p'. unfold member_objs, member_ptrs. intros [= -> -> -> -> -> -> -> ->]. done. Qed.

Lemma pages_complete_fill_pages n p : pages_complete cfg (fill_pages cfg n p).
Proof.
  right. unfold fill_pages, build_page_fields. cbv zeta. rewrite length_default_pages.
  cbn [pGeneral pCommLinks pOfflineMaps pMAVLink pConsole pMockLink pDebug].
  destruct (qt_debug cfg); simpl; repeat constructor; by eexists.
Qed.

Lemma members_inv_exec s0 c pl s pl' s' :
  plugin_inv cfg s0 pl s -> members_inv cfg (_p pl) (st_heap s) ->
  exec cfg c pl s = Ok (pl', s') -> members_inv cfg (_p pl') (st_heap s').
Proof.
  intros Hi [Ht Hc] Hrun. split; [by eapply members_typed_exec|].
  destruct (exec_shape s0 c pl s pl' s' Hi Hrun) as (_ & _ & [Hm|[(_ & -> & _)|(_ & -> & _)]]).
  - destruct (member_objs_inj _ _ Hm) as [_ Hb]. unfold pages_complete.
    assert (pGeneral (_p pl') = pGeneral (_p pl)) as ->
      by (apply (f_equal head) in Hb; simpl in Hb; congruence).
    by rewrite Hb.
  - apply pages_complete_fill_pages.
  - by destruct (_p pl).
Qed.

(** Once the pages and the options exist, no call changes a member. *)
Lemma member_ptrs_guards p p' :
  member_ptrs p' = member_ptrs p ->
  pGeneral p' = pGeneral p /\ defaultOptions p' = defaultOptions p.
Proof. destruct p, p'. unfold member_ptrs, member_objs. by intros [= -> -> -> -> -> -> -> ->]. Qed.

Lemma exec_members_stable s0 c pl s pl' s' :
  plugin_inv cfg s0 pl s -> is_Some (pGeneral (_p pl)) -> is_Some (defaultOptions (_p pl)) ->
  exec cfg c pl s = Ok (pl', s') -> member_ptrs (_p pl') = member_ptrs (_p pl).
Proof.
  intros Hi [g Hg] [o Ho] Hrun.
  destruct (exec_shape s0 c pl s pl' s' Hi Hrun) as (_ & _ & [Hm|[(Hn & _)|(Hn & _)]]); [|congruence..].
  by destruct (member_objs_inj _ _ Hm).
Qed.

Lemma run_calls_members_stable s0 cs pl s pl' s' :
  store_wf s0 -> reachable cfg s0 pl s ->
  is_Some (pGeneral (_p pl)) -> is_Some (defaultOptions (_p pl)) ->
  run_calls cfg cs pl s = Ok (pl', s') -> member_ptrs (_p pl') = member_ptrs (_p pl).
Proof.
  intros Hs0. revert pl s. induction cs as [|c cs IH]; intros pl s Hr Hg Ho Hrun;
    cbn [run_calls] in Hrun; [by injection Hrun as <- _|].
  unfold bind in Hrun. destruct (exec cfg c pl s) as [[pl1 s1]|] eqn:E; [|done].
  pose proof (exec_members_stable s0 c pl s pl1 s1 (reachable_inv cfg s0 pl s Hs0 Hr) Hg Ho E) as E1.
  destruct (member_ptrs_guards _ _ E1) as [Eg Eo].
  rewrite (IH pl1 s1 (reach_step _ _ _ _ _ _ _ Hr E)) by (by rewrite ?Eg, ?Eo || done).
  exact E1.
Qed.

(** [options()] fills [defaultOptions] and leaves the pages alone. *)
Lemma exec_options_run pl s :
  exists pl' s', exec cfg CallOptions pl s = Ok (pl', s') /\
    is_Some (defaultOptions (_p pl')) /\ build_page_fields cfg (_p pl') = build_page_fields cfg (_p pl).
Proof.
  cbn [exec]. unfold options. rewrite bind_assoc. destruct (defaultOptions (_p pl)) as [l|] eqn:E.
  - rewrite (bind_Ok _ _ _ _ _ (options_p_Some _ s l E)). eexists _, _. split; [reflexivity|].
    cbn. rewrite ?set_p_id, E. by split; [eexists|].
  - rewrite (bind_Ok _ _ _ _ _ (options_p_None _ s E)). eexists _, _. split; [reflexivity|].
    cbn. split; [by eexists|]. by destruct (_p pl).
Qed.

Lemma exec_settingsPages_run pl s :
  exists pl' s', exec cfg CallSettingsPages pl s = Ok (pl', s') /\ is_Some (pGeneral (_p pl')).
Proof.
  destruct (settingsPages_total cfg pl s) as (r & pl' & s' & E). cbn [exec].
  rewrite (bind_Ok _ _ _ _ _ E). eexists _, _. split; [reflexivity|].
  exact (settingsPages_sets_pGeneral _ _ _ _ _ _ E).
Qed.

(** Each object the destructor deletes is held by a member. *)
Lemma owned_in_members p l : l ∈ owned cfg p -> exists o, (Some l, o) ∈ member_objs p.
Proof.
  intros Hl. apply elem_of_non_null in Hl.
  destruct p as [g c o m co ml d sl opt], cfg as [[] mob];
    unfold dtor_fields, dtor_page_fields, member_objs in *; cbn in *;
    repeat (apply elem_of_cons in Hl as [Heq|Hl];
      [first [discriminate | subst; eexists; by repeat (apply elem_of_cons; (left; reflexivity) || right)]|]);
    by apply elem_of_nil in Hl.
Qed.

(** So, with typed members, no owned object is an engine. *)
Lemma owned_not_engine p h l e :
  members_typed p h -> l ∈ owned cfg p -> h !! l <> Some (OEngine e).
Proof.
  intros Ht Hl He. destruct (owned_in_members p l Hl) as [o Ho].
  unfold members_typed in Ht. rewrite Forall_forall in Ht.
  specialize (Ht _ (proj1 (list_elem_of_In _ _) Ho)). unfold typed_at in Ht. cbn in Ht.
  rewrite He in Ht. injection Ht as <-. destruct p; unfold member_objs in Ho.
  repeat (apply elem_of_cons in Ho as [Ho|Ho]; [discriminate|]). by apply elem_of_nil in Ho.
Qed.

Lemma reachable_members s0 pl s :
  store_wf s0 -> reachable cfg s0 pl s -> members_inv cfg (_p pl) (st_heap s).
Proof.
  intros Hs0 Hr. induction Hr as [app toolbox|c pl s pl' s' Hr IH Hexec].
  - split; [|by left]. unfold members_typed, member_objs. cbn. by repeat constructor.
  - eapply members_inv_exec; [|exact IH|exact Hexec]. by apply reachable_inv.
Qed.

End MembersProofs.

Section MembersClaims.
Context `{Translator}.
Variable cfg : BuildConfig.

(** The destructor owns at most one object per member the build has. *)
Lemma length_owned_le p : length (owned cfg p) <= length (default_pages cfg) + 1.
Proof.
  destruct p as [g c o m co ml d sl opt], cfg as [[] mob];
    unfold owned, dtor_fields, dtor_page_fields, non_null; cbn [qt_debug default_pages];
    destruct g, c, o, m, co, opt; try destruct ml; try destruct d; simpl; lia.
Qed.

(** The objects the plugin allocated are among those it owns. *)
Lemma dom_plugin_allocated s0 pl s :
  plugin_inv cfg s0 pl s ->
  (dom (plugin_allocated s0 s) : gset N) ⊆ list_to_set (owned cfg (_p pl)).
Proof.
  intros Hi l Hl. apply elem_of_dom in Hl as [o Hl].
  apply map_lookup_filter_Some in Hl as [Hl [Hnew Heng]]. cbn [fst snd] in Hnew, Heng.
  apply elem_of_list_to_set.
  destruct (pi_live _ _ _ _ Hi l o Hl) as [Hold|[Hown|Hen]]; [congruence|done|done].
Qed.

(** C20: The typing of the members holds in every state a plugin reaches:
    each non-NULL page member points to a [QGCSettings] object holding the
    very descriptor the source created for it (so descriptors are never
    changed after creation), [defaultOptions] points to a [QGCOptions],
    and the page members of the build are either all NULL or all set. *)
Theorem members_well_typed s0 pl s :
  store_wf s0 -> reachable cfg s0 pl s -> members_inv cfg (_p pl) (st_heap s).
Proof. apply reachable_members. Qed.

(** C21: From any state a plugin reaches, the two calls [settingsPages()]
    and [options()] return and fill every member of the build: all the
    page members and [defaultOptions] are non-NULL.  From then on, whatever
    the calls, no member ever changes. *)
Theorem members_eventually_filled s0 pl s :
  store_wf s0 -> reachable cfg s0 pl s ->
  exists pl' s', run_calls cfg [CallSettingsPages; CallOptions] pl s = Ok (pl', s') /\
    Forall is_Some (build_page_fields cfg (_p pl')) /\ is_Some (defaultOptions (_p pl')) /\
    forall cs pl'' s'', run_calls cfg cs pl' s' = Ok (pl'', s'') ->
      member_ptrs (_p pl'') = member_ptrs (_p pl').
Proof.
  intros Hs0 Hr. destruct (exec_settingsPages_run cfg pl s) as (pl1 & s1 & E1 & Hg).
  destruct (exec_options_run cfg pl1 s1) as (pl2 & s2 & E2 & Ho & Hb).
  pose proof (reach_step _ _ _ _ _ _ _ Hr E1) as Hr1.
  pose proof (reach_step _ _ _ _ _ _ _ Hr1 E2) as Hr2.
  exists pl2, s2. split; [by cbn [run_calls]; rewrite (bind_Ok _ _ _ _ _ E1), (bind_Ok _ _ _ _ _ E2)|].
  split_and!; [|done|].
  - rewrite Hb. destruct (mi_complete _ _ _ (reachable_members cfg s0 pl1 s1 Hs0 Hr1)) as [Hn|Hall];
      [destruct Hg; congruence|done].
  - intros cs pl'' s'' Hrun. eapply (run_calls_members_stable cfg); [done|exact Hr2| |done|exact Hrun].
    destruct Hg as [g Hg]. destruct (mi_complete _ _ _ (reachable_members cfg s0 pl1 s1 Hs0 Hr1))
      as [?|Hall]; [congruence|]. rewrite <- Hb in Hall. by inversion Hall.
Qed.

(** C22: The plugin's memory is bounded: however many calls it serves,
    the live objects it allocated itself (those not live at its
    construction, engines apart) are at most [length (default_pages cfg)
    + 1], that is 8 in a debug build and 6 in a release build.  The engines
    [createRootWindow] makes are not bounded: each call allocates one. *)
Theorem plugin_footprint_bound s0 pl s :
  store_wf s0 -> reachable cfg s0 pl s ->
  size (plugin_allocated s0 s) <= length (default_pages cfg) + 1.
Proof.
  intros Hs0 Hr. pose proof (reachable_inv cfg s0 pl s Hs0 Hr) as Hi.
  rewrite <- size_dom. etrans; [apply subseteq_size, (dom_plugin_allocated s0 pl s Hi)|].
  rewrite size_list_to_set by apply (pw_nodup _ _ _ (pi_priv _ _ _ _ Hi)).
  apply length_owned_le.
Qed.

(** C1: Whatever a client did with the plugin since its construction,
    destroying it has no undefined behaviour (no page or options object is
    deleted twice or deleted dangling), and the heap afterwards is exactly
    the heap before the destruction restricted to the objects that existed
    before the plugin and the engines: every settings page and the options
    object the plugin allocated are freed, every engine [createRootWindow]
    handed out stays live, and no object that existed before the plugin is
    freed. *)
Theorem destroy_after_any_run s0 pl s :
  store_wf s0 -> reachable cfg s0 pl s ->
  exists s', QGCCorePlugin_dtor cfg pl s = Ok (tt, s') /\
    st_heap s' = survivors s0 s /\ st_heap s0 ⊆ st_heap s'.
Proof.
  intros Hs0 Hr. pose proof (reachable_inv cfg s0 pl s Hs0 Hr) as Hi.
  pose proof (mi_typed _ _ _ (reachable_members cfg s0 pl s Hs0 Hr)) as Ht.
  eexists. split; [apply p_dtor_run, (pi_priv _ _ _ _ Hi)|]. cbn [with_heap st_heap]. split.
  - apply map_eq. intros l. apply option_eq. intros o. unfold survivors.
    rewrite map_lookup_filter_Some, lookup_delete_seq. cbn [fst snd]. case_decide as Hown.
    + split; [done|]. intros [Hl [Hold|Heng]].
      * by rewrite (pi_owned_new _ _ _ _ Hi l Hown) in Hold.
      * destruct o; simpl in Heng; try done. exfalso. by eapply owned_not_engine.
    + split; [|by intros [? _]]. intros Hl. split; [done|].
      destruct (pi_live _ _ _ _ Hi l o Hl) as [?|[?|?]]; [by left|done|by right].
  - apply map_subseteq_spec. intros l o Hl. rewrite lookup_delete_seq. case_decide as Hown.
    + by rewrite (pi_owned_new _ _ _ _ Hi l Hown) in Hl.
    + by apply (pi_keep _ _ _ _ Hi).
Qed.

End MembersClaims.

(** ** Witnesses: the demonstration run of [Plugin] *)

Section Witnesses.
#[local] Existing Instance untranslated.

Lemma destroy_after_any_run_witness :
  store_wf empty_store /\ reachable debug_build empty_store demo_state.1 demo_state.2 /\
  exists s', QGCCorePlugin_dtor debug_build demo_state.1 demo_state.2 = Ok (tt, s') /\
    st_heap s' = survivors empty_store demo_state.2 /\ st_heap empty_store ⊆ st_heap s'.
Proof.
  split_and!; [exact empty_store_wf|exact demo_reachable|].
  exact (destroy_after_any_run debug_build empty_store _ _ empty_store_wf demo_reachable).
Defined.

Lemma members_well_typed_witness :
  store_wf empty_store /\ reachable debug_build empty_store demo_state.1 demo_state.2 /\
  members_inv debug_build (_p demo_state.1) (st_heap demo_state.2).
Proof.
  split_and!; [exact empty_store_wf|exact demo_reachable|].
  exact (members_well_typed debug_build empty_store _ _ empty_store_wf demo_reachable).
Defined.

Lemma members_eventually_filled_witness :
  store_wf empty_store /\ reachable debug_build empty_store demo_state.1 demo_state.2 /\
  exists pl' s', run_calls debug_build [CallSettingsPages; CallOptions] demo_state.1 demo_state.2
                 = Ok (pl', s') /\
    Forall is_Some (build_page_fields debug_build (_p pl')) /\ is_Some (defaultOptions (_p pl')) /\
    forall cs pl'' s'', run_calls debug_build cs pl' s' = Ok (pl'', s'') ->
      member_ptrs (_p pl'') = member_ptrs (_p pl').
Proof.
  split_and!; [exact empty_store_wf|exact demo_reachable|].
  exact (members_eventually_filled debug_build empty_store _ _ empty_store_wf demo_reachable).
Defined.

Lemma plugin_footprint_bound_witness :
  store_wf empty_store /\ reachable debug_build empty_store demo_state.1 demo_state.2 /\
  size (plugin_allocated empty_store demo_state.2) <= length (default_pages debug_build) + 1.
Proof.
  split_and!; [exact empty_store_wf|exact demo_reachable|].
  exact (plugin_footprint_bound debug_build empty_store _ _ empty_store_wf demo_reachable).
Defined.

End Witnesses.
