(* ===== verification/QmlBinding.v ===== *)
(** The plugin seen from QML: a binding on the two notifying properties
    [showTouchAreas] and [showAdvancedUI] (QGCCorePlugin.cc, lines
    183-197, and the [Q_PROPERTY ... NOTIFY] declarations of the header).

    QML reads a property once, when the binding is created.  Afterwards it
    updates its copy only when the NOTIFY signal of that property arrives
    ([on_signal]).  The QML side is modelled from Qt's contract for
    [NOTIFY], since it is not in this repository: [qml_view] folds the
    signals over the values read.

    The theorem [qml_view_in_sync] composes the plugin with this client.
    A binding created in any state stays equal to the plugin's properties
    after any sequence of client calls.  This needs every method to keep
    the signal log in step with the members: a setter that changed its
    flag without emitting, emitted the wrong value, or emitted the signal
    of the other property would break it, and so would any other method
    that touched a flag or emitted. *)

From stdpp Require Import base gmap strings list numbers.
From S2P Require Import Spec2Rocq QtTypes Runtime PluginState SettingsPages Options UiFlags.
From S2P Require Import RootWindow Plugin.

(** The values a QML binding holds for the two properties. *)
Record QmlView := mkQmlView {
  qv_showTouchAreas : bool;
  qv_showAdvancedUI : bool
}.

(** The handler of the NOTIFY signals. *)
Definition on_signal (v : QmlView) (sg : Signal) : QmlView :=
  match sg with
  | showTouchAreasChanged b => mkQmlView b (qv_showAdvancedUI v)
  | showAdvancedUIChanged b => mkQmlView (qv_showTouchAreas v) b
  end.

(** The binding after the signals [sigs], from the values it read. *)
Definition qml_view (v0 : QmlView) (sigs : list Signal) : QmlView := foldl on_signal v0 sigs.

(** Reading the two properties. *)
Definition read_properties (pl : QGCCorePlugin) : QmlView :=
  mkQmlView (_showTouchAreas pl) (_showAdvancedUI pl).

Lemma qml_view_app v sigs1 sigs2 :
  qml_view v (sigs1 ++ sigs2) = qml_view (qml_view v sigs1) sigs2.
Proof. apply foldl_app. Qed.

(** A setter's run: no signal, or the one it emitted. *)
Ltac signal_case :=
  first [ exists []; split; [by rewrite app_nil_r | reflexivity]
        | eexists; split; reflexivity ].

Section QmlProofs.
Context `{Translator}.
Variable cfg : BuildConfig.

(** One call: the signals it emits take a binding from the properties
    before it to the properties after it. *)
Lemma exec_signals c pl s pl' s' :
  exec cfg c pl s = Ok (pl', s') ->
  exists new, st_signals s' = st_signals s ++ new /\
    qml_view (read_properties pl) new = read_properties pl'.
Proof.
  destruct c as [| |b|b|toolbox self|parent|f]; cbn [exec].
  - destruct (settingsPages_total cfg pl s) as (r & q & s1 & E).
    rewrite (bind_Ok _ _ _ _ _ E). intros [= <- <-]. exists [].
    rewrite app_nil_r. unfold settingsPages in E. destruct (pGeneral (_p pl)) as [g|] eqn:Hg.
    + rewrite (bind_Ok _ _ _ _ _ (settingsPages_p_Some cfg _ s g Hg)) in E.
      injection E as <- <- <-. by rewrite set_p_id.
    + rewrite (bind_Ok _ _ _ _ _ (settingsPages_p_None cfg _ s Hg)) in E.
      apply Ok_inj, pair_equal_spec in E as [[_ <-]%pair_equal_spec <-]. done.
  - unfold options. rewrite bind_assoc. destruct (defaultOptions (_p pl)) as [l|] eqn:E.
    + rewrite (bind_Ok _ _ _ _ _ (options_p_Some _ s l E)). intros [= <- <-].
      exists []. by rewrite app_nil_r, set_p_id.
    + rewrite (bind_Ok _ _ _ _ _ (options_p_None _ s E)). intros Hrun.
      apply Ok_inj, pair_equal_spec in Hrun as [<- <-]. exists []. by rewrite app_nil_r.
  - unfold setShowTouchAreas. destruct pl as [a t p ta ad]; cbn [_showTouchAreas].
    destruct b, ta; run_M; intros [= <- <-]; signal_case.
  - unfold setShowAdvancedUI. destruct pl as [a t p ta ad]; cbn [_showAdvancedUI].
    destruct b, ad; run_M; intros [= <- <-]; signal_case.
  - destruct (setToolbox_run toolbox self pl s) as (s1 & E & _ & _ & _ & _ & Es).
    rewrite E. intros [= <- <-]. exists []. by rewrite app_nil_r, Es.
  - rewrite (bind_Ok _ _ _ _ _ (createRootWindow_run parent s)). intros Hrun.
    apply Ok_inj, pair_equal_spec in Hrun as [<- <-]. exists []. by rewrite app_nil_r.
  - intros [= <- <-]. exists []. by rewrite app_nil_r.
Qed.

(** C23: A QML binding on [showTouchAreas] and [showAdvancedUI] stays in
    sync with the plugin.  Take a binding created in any state, reading
    both properties.  After any sequence of client calls, the signals
    emitted in between, applied to what it read, give exactly the
    plugin's current values. *)
Theorem qml_view_in_sync cs pl s pl' s' :
  run_calls cfg cs pl s = Ok (pl', s') ->
  exists new, st_signals s' = st_signals s ++ new /\
    qml_view (read_properties pl) new = read_properties pl'.
Proof.
  revert pl s. induction cs as [|c cs IH]; intros pl s Hrun; cbn [run_calls] in Hrun.
  - injection Hrun as <- <-. exists []. by rewrite app_nil_r.
  - unfold bind in Hrun. destruct (exec cfg c pl s) as [[pl1 s1]|] eqn:E; [|done].
    destruct (exec_signals c pl s pl1 s1 E) as (new1 & Hs1 & Hv1).
    destruct (IH pl1 s1 Hrun) as (new2 & Hs2 & Hv2).
    exists (new1 ++ new2). split; [by rewrite Hs2, Hs1, app_assoc|].
    by rewrite qml_view_app, Hv1.
Qed.

End QmlProofs.

(** ** Witness: a binding created at construction, after the demonstration run *)

Section Witnesses.
#[local] Existing Instance untranslated.

Lemma qml_view_in_sync_witness :
  run_calls debug_build demo_calls (QGCCorePlugin_ctor 1 2) empty_store
    = Ok (demo_state.1, demo_state.2) /\
  exists new, st_signals demo_state.2 = st_signals empty_store ++ new /\
    qml_view (read_properties (QGCCorePlugin_ctor 1 2)) new = read_properties demo_state.1.
Proof.
  assert (E : run_calls debug_build demo_calls (QGCCorePlugin_ctor 1 2) empty_store
                = Ok (demo_state.1, demo_state.2)) by (vm_compute; reflexivity).
  split; [exact E|]. exact (qml_view_in_sync debug_build _ _ _ _ _ E).
Defined.

End Witnesses.
