(* ===== verification/Hazards.v ===== *)
(** What a client must not do with the pointers the plugin exposes
    (QGCCorePlugin.cc, lines 42-62 and 100-135).

    [settingsPages()] hands out its [QVariantList] by reference.  The list
    holds [QVariant]s of the raw [QGCSettings*] members, and the plugin's
    destructor deletes those members.  Nothing marks the pointers as
    borrowed.  If a client deletes one, for instance while removing a page
    it does not want, the plugin's destructor later deletes it a second
    time.

    [client_delete_entry] models that client code.
    [client_delete_then_destroy] states that it always leads to undefined
    behaviour.  Take any state a plugin reaches and any entry of its list
    that points to an object the plugin owns.  If a client deletes that
    object, the plugin's destruction is undefined behaviour at exactly
    that object, and the objects before it in the destructor's order
    have already been freed by then.  [settingsPages_list_aliases_members]
    shows that the entries of a freshly made list are exactly these
    objects. *)

From stdpp Require Import base gmap strings list numbers.
From S2P Require Import Spec2Rocq QtTypes Runtime PluginState SettingsPages Plugin.

(** [qvariant_cast<QGCSettings*>(v)]: the page pointer an entry holds. *)
Definition qvariant_cast_settings (v : QVariant) : option N :=
  match v with
  | QV_settings l => Some l
  | _ => None
  end.

(** A client that removes a page and frees it:
    [delete qvariant_cast<QGCSettings*>(v);]. *)
Definition client_delete_entry (v : QVariant) : M unit :=
  delete_if (qvariant_cast_settings v).

Section Hazards.
Context `{Translator}.
Variable cfg : BuildConfig.

(** C24: Take a plugin in any state it can reach and an entry of its
    page list that points to a page the plugin owns.  A client's
    [delete] of that page succeeds, and the plugin's destruction
    afterwards is undefined behaviour: a second delete of that very
    object. *)
Theorem client_delete_then_destroy s0 pl s i v l :
  store_wf s0 -> reachable cfg s0 pl s ->
  settingsList (_p pl) !! i = Some v -> qvariant_cast_settings v = Some l ->
  l ∈ owned cfg (_p pl) ->
  exists s1, client_delete_entry v s = Ok (tt, s1) /\
    QGCCorePlugin_dtor cfg pl s1 = UB (UB_delete_dangling l).
Proof.
  intros Hs0 Hr _ Hv Hl. pose proof (pi_priv _ _ _ _ (reachable_inv cfg s0 pl s Hs0 Hr)) as Hp.
  pose proof (pw_live _ _ _ Hp) as Hlive. unfold all_live in Hlive. rewrite Forall_forall in Hlive.
  destruct (Hlive l (proj1 (list_elem_of_In _ _) Hl)) as [o Ho].
  eexists. split; [unfold client_delete_entry; rewrite Hv; cbn [delete_if]; unfold cpp_delete; by rewrite Ho|].
  unfold QGCCorePlugin_dtor. rewrite QGCCorePlugin_p_dtor_eq.
  apply for_each_delete_dangling; [apply (pw_nodup _ _ _ Hp)|done|apply lookup_delete_eq|].
  intros x Hx Hxl. cbn [with_heap st_heap]. rewrite lookup_delete_ne by done.
  by apply Hlive, list_elem_of_In.
Qed.

End Hazards.

(** ** Witness: deleting the General page after the first [settingsPages()] *)

Section Witnesses.
#[local] Existing Instance untranslated.

(** The plugin right after its first [settingsPages()]. *)
Definition pages_state : QGCCorePlugin * Store :=
  match run_calls debug_build [CallSettingsPages] (QGCCorePlugin_ctor 1 2) empty_store with
  | Ok r => r
  | UB _ => (QGCCorePlugin_ctor 1 2, empty_store)
  end.

Lemma client_delete_then_destroy_witness :
  store_wf empty_store /\ reachable debug_build empty_store pages_state.1 pages_state.2 /\
  settingsList (_p pages_state.1) !! 0 = Some (QV_settings 0) /\
  qvariant_cast_settings (QV_settings 0) = Some 0%N /\
  0%N ∈ owned debug_build (_p pages_state.1) /\
  exists s1, client_delete_entry (QV_settings 0) pages_state.2 = Ok (tt, s1) /\
    QGCCorePlugin_dtor debug_build pages_state.1 s1 = UB (UB_delete_dangling 0).
Proof.
  pose proof empty_store_wf as Hwf.
  assert (Hr : reachable debug_build empty_store pages_state.1 pages_state.2).
  { apply (run_calls_reachable debug_build empty_store [CallSettingsPages] _ _ _ _
             (reach_ctor _ _ 1 2)). vm_compute. reflexivity. }
  assert (Hi : settingsList (_p pages_state.1) !! 0 = Some (QV_settings 0))
    by (vm_compute; reflexivity).
  assert (Hv : qvariant_cast_settings (QV_settings 0) = Some 0%N) by reflexivity.
  assert (Hl : 0%N ∈ owned debug_build (_p pages_state.1)) by vm_decide.
  split_and!; [exact Hwf|exact Hr|exact Hi|exact Hv|exact Hl|].
  exact (client_delete_then_destroy debug_build empty_store _ _ 0 _ 0 Hwf Hr Hi Hv Hl).
Defined.

End Witnesses.
