(* ===== verification/Contract.v ===== *)
(** The plugin's contract, as the spec states it (sections 4.1, 4.2 and
    8), and the refinement theorem that the code implements it.

    The abstract plugin [APlugin] only knows whether the pages were asked
    for, which options instance it handed out, and its two flags.  Its
    step [astep] is relational: [pages()] answers the default pages in
    display order, every time; [options()] answers some instance the first
    time and that same instance every later time; the setters set their
    flag; the other calls change nothing observable.  The concrete
    observation [exec_obs] reads the pages the returned list points to.

    [refines] relates a concrete state to an abstract one; [refinement]
    shows that every concrete call from a related state is an abstract step
    with the same observation, to a related state.  The contract leaves
    out writes through the reference [settingsPages()] returns: the spec
    calls the list immutable, which the code does not enforce (an emptied
    list is not refilled, by [SettingsPages.settingsPages_cached]). *)

From stdpp Require Import base gmap strings list numbers.
From S2P Require Import Spec2Rocq QtTypes Runtime PluginState SettingsPages Options UiFlags.
From S2P Require Import RootWindow Plugin.

Record APlugin := mkAPlugin {
  a_pages : bool;
  a_options : option N;
  a_touch : bool;
  a_adv : bool
}.

Inductive Obs :=
  | ObsPages (ps : list QGCSettings)
  | ObsOptions (l : N)
  | ObsEngine (l : N)     (** the [QQmlApplicationEngine*] of [createRootWindow] *)
  | ObsNone.

Section Contract.
Context `{Translator}.
Variable cfg : BuildConfig.

Inductive astep : APlugin -> Call -> Obs -> APlugin -> Prop :=
  | as_pages a :
      astep a CallSettingsPages (ObsPages (default_pages cfg))
            (mkAPlugin true (a_options a) (a_touch a) (a_adv a))
  | as_options_first a l :
      a_options a = None ->
      astep a CallOptions (ObsOptions l) (mkAPlugin (a_pages a) (Some l) (a_touch a) (a_adv a))
  | as_options_again a l :
      a_options a = Some l -> astep a CallOptions (ObsOptions l) a
  | as_touch a b :
      astep a (CallSetShowTouchAreas b) ObsNone (mkAPlugin (a_pages a) (a_options a) b (a_adv a))
  | as_adv a b :
      astep a (CallSetShowAdvancedUI b) ObsNone (mkAPlugin (a_pages a) (a_options a) (a_touch a) b)
  | as_toolbox a toolbox self : astep a (CallSetToolbox toolbox self) ObsNone a
  | as_window a parent l : astep a (CallCreateRootWindow parent) (ObsEngine l) a.

(** A call with what the client observes of its result. *)
Definition exec_obs (c : Call) (pl : QGCCorePlugin) : M (Obs * QGCCorePlugin) :=
  match c with
  | CallSettingsPages =>
      do r <- settingsPages cfg pl;
      do h <- gets st_heap;
      ret (match mapM (page_at h) r.1 with Some ps => ObsPages ps | None => ObsNone end, r.2)
  | CallOptions =>
      do r <- options pl;
      ret (match r.1 with Some l => ObsOptions l | None => ObsNone end, r.2)
  | CallCreateRootWindow parent =>
      do l <- createRootWindow parent;
      ret (ObsEngine l, pl)
  | _ => do pl' <- exec cfg c pl; ret (ObsNone, pl')
  end.

Record refines (pl : QGCCorePlugin) (s : Store) (a : APlugin) : Prop := {
  rf_store : store_wf s;
  rf_priv : priv_wf cfg (_p pl) (st_heap s);
  rf_options : a_options a = defaultOptions (_p pl);
  rf_options_obj : forall l, defaultOptions (_p pl) = Some l ->
                             st_heap s !! l = Some (OOptions QGCOptions_default);
  rf_touch : a_touch a = _showTouchAreas pl;
  rf_adv : a_adv a = _showAdvancedUI pl;
  rf_not_made : a_pages a = false -> pGeneral (_p pl) = None /\ settingsList (_p pl) = [];
  rf_made : a_pages a = true -> is_Some (pGeneral (_p pl)) /\
            mapM (page_at (st_heap s)) (settingsList (_p pl)) = Some (default_pages cfg)
}.

End Contract.

(** A call [exec_obs] passes to [exec] returns, with no observation. *)
Ltac total_via_exec s :=
  lazymatch goal with
  | |- context [exec ?cfg ?c ?q] =>
      destruct (exec_total cfg c q s) as (q1 & s1 & E);
      rewrite (bind_Ok _ _ _ _ _ E); by eexists _, _, _
  end.

Section Refinement.
Context `{Translator}.
Variable cfg : BuildConfig.

Lemma page_at_insert_fresh s v p o :
  store_wf s -> page_at (st_heap s) v = Some p ->
  page_at (<[st_next s := o]> (st_heap s)) v = Some p.
Proof.
  intros Hs. destruct v as [| | |a|]; try done. simpl.
  destruct (st_heap s !! a) as [x|] eqn:E; [|done].
  rewrite lookup_insert_ne; [by rewrite E|]. specialize (Hs _ _ E). simpl in Hs. lia.
Qed.

Lemma mapM_page_at_insert_fresh s l ps o :
  store_wf s -> mapM (page_at (st_heap s)) l = Some ps ->
  mapM (page_at (<[st_next s := o]> (st_heap s))) l = Some ps.
Proof.
  intros Hs. revert ps. induction l as [|v l IH]; intros ps Hl; [done|].
  simpl in *. destruct (page_at (st_heap s) v) as [p|] eqn:E; [|done]. simpl in Hl.
  destruct (mapM (page_at (st_heap s)) l) as [ps'|] eqn:E'; [|done].
  rewrite (page_at_insert_fresh s v p o Hs E), (IH ps' eq_refl). done.
Qed.

Lemma refines_init s0 app toolbox :
  store_wf s0 -> refines cfg (QGCCorePlugin_ctor app toolbox) s0 (mkAPlugin false None false true).
Proof. intros Hs. split; try done. apply ctor_wf. Qed.

(** A call that keeps the heap and the private object keeps the relation. *)
Lemma refines_frame pl s a pl' s' a' :
  refines cfg pl s a -> st_heap s' = st_heap s -> st_next s' = st_next s -> _p pl' = _p pl ->
  a_pages a' = a_pages a -> a_options a' = a_options a ->
  a_touch a' = _showTouchAreas pl' -> a_adv a' = _showAdvancedUI pl' ->
  refines cfg pl' s' a'.
Proof.
  intros [Hs Hp Ho Hoo Ht Ha Hn Hm] Eh En Ep Epg Eo Et Ea.
  split; rewrite ?Eh, ?Ep, ?Epg, ?Eo; try done. by eauto with qgc.
Qed.

(** Allocating an object the plugin does not own keeps the relation. *)
Lemma refines_insert_fresh pl s a o :
  refines cfg pl s a ->
  refines cfg pl (with_heap (<[st_next s := o]> (st_heap s)) (st_next s + 1)%N s) a.
Proof.
  intros [Hs Hp Ho Hoo Ht Ha Hn Hm]. split; simpl; try done.
  - by eauto with qgc.
  - by eauto with qgc.
  - intros l El. rewrite lookup_insert_ne; [by apply Hoo|].
    specialize (Hoo l El). specialize (Hs _ _ Hoo). simpl in Hs. lia.
  - intros Em. destruct (Hm Em) as [? Hps]. split; [done|]. by apply mapM_page_at_insert_fresh.
Qed.

Lemma refines_pages pl s a o pl' s' :
  refines cfg pl s a -> exec_obs cfg CallSettingsPages pl s = Ok ((o, pl'), s') ->
  exists a', astep cfg a CallSettingsPages o a' /\ refines cfg pl' s' a'.
Proof.
  intros Hr. pose proof Hr as [Hs Hp Ho Hoo Ht Ha Hn Hm]. cbn [exec_obs].
  destruct (pGeneral (_p pl)) as [g|] eqn:Hg.
  - assert (a_pages a = true) as Em by (destruct (a_pages a); naive_solver).
    rewrite (bind_Ok _ _ _ _ _ (settingsPages_cached_run cfg pl s g Hg)). cbn.
    destruct (Hm Em) as [_ ->]. intros [= <- <- <-].
    exists (mkAPlugin true (a_options a) (a_touch a) (a_adv a)). split; [constructor|].
    eapply refines_frame; [exact Hr|done..].
  - assert (a_pages a = false) as Em by (destruct (a_pages a); naive_solver).
    destruct (Hn Em) as [_ Hl]. pose proof (settingsPages_p_None cfg _ s Hg) as E.
    destruct (settingsPages_p_preserves_wf cfg _ s _ _ Hs Hp E) as [Hs1 Hp1].
    unfold settingsPages. rewrite bind_assoc, (bind_Ok _ _ _ _ _ E). unfold bind, gets, ret.
    cbn [fst snd set_p _p fill_pages settingsList with_heap st_heap]. rewrite Hl, app_nil_l.
    rewrite (mapM_page_at_alloc_seq (st_next s) (default_pages cfg) (st_heap s)).
    intros Hrun. apply Ok_inj, pair_equal_spec in Hrun as [[<- <-]%pair_equal_spec <-].
    exists (mkAPlugin true (a_options a) (a_touch a) (a_adv a)).
    split; [constructor|]. split; try done; cbn [a_pages a_options].
    + intros l El. cbn [set_p _p with_heap st_heap].
      apply (alloc_seq_preserves s); [done|]. by apply Hoo.
    + intros _. cbn [set_p _p]. rewrite pGeneral_fill_pages. split; [by eexists|].
      cbn [fill_pages settingsList]. rewrite Hl. apply mapM_page_at_alloc_seq.
Qed.

Lemma refines_options pl s a o pl' s' :
  refines cfg pl s a -> exec_obs cfg CallOptions pl s = Ok ((o, pl'), s') ->
  exists a', astep cfg a CallOptions o a' /\ refines cfg pl' s' a'.
Proof.
  intros Hr. pose proof Hr as [Hs Hp Ho Hoo Ht Ha Hn Hm]. cbn [exec_obs].
  unfold options. rewrite bind_assoc.
  destruct (defaultOptions (_p pl)) as [l|] eqn:E.
  - rewrite (bind_Ok _ _ _ _ _ (options_p_Some _ s l E)). cbn. rewrite set_p_id.
    intros [= <- <- <-]. exists a. split; [by constructor|done].
  - rewrite (bind_Ok _ _ _ _ _ (options_p_None _ s E)). cbn.
    intros Hrun. apply Ok_inj, pair_equal_spec in Hrun as [[<- <-]%pair_equal_spec <-]. exists (mkAPlugin (a_pages a) (Some (st_next s)) (a_touch a) (a_adv a)).
    split; [by constructor|].
    destruct (refines_insert_fresh pl s a (OOptions QGCOptions_default) Hr)
      as [Hs' Hp' _ _ _ _ Hn' Hm'].
    assert (Hpw : priv_wf cfg (set_defaultOptions (Some (st_next s)) (_p pl))
                   (<[st_next s := OOptions QGCOptions_default]> (st_heap s))).
    { refine (proj2 (options_preserves_wf cfg pl s (Some (st_next s))
        (set_p (set_defaultOptions (Some (st_next s)) (_p pl)) pl)
        (with_heap (<[st_next s := OOptions QGCOptions_default]> (st_heap s))
                   (st_next s + 1)%N s) Hs Hp _)).
      unfold options. by rewrite (bind_Ok _ _ _ _ _ (options_p_None _ s E)). }
    split; cbn [a_pages a_options a_touch a_adv set_p _p]; try done.
    all: try (intros l [= <-]; apply lookup_insert_eq).
    all: intros Em; first [destruct (Hn' Em) | destruct (Hm' Em)]; by destruct (_p pl).
Qed.

(** One step of the simulation. *)
Lemma refinement_step pl s a c o pl' s' :
  refines cfg pl s a -> (forall f, c <> CallEditPages f) ->
  exec_obs cfg c pl s = Ok ((o, pl'), s') ->
  exists a', astep cfg a c o a' /\ refines cfg pl' s' a'.
Proof.
  intros Hr Hc. destruct c as [| |b|b|toolbox self|parent|f].
  - by apply refines_pages.
  - by apply refines_options.
  - cbn [exec_obs exec]. unfold bind at 1.
    destruct (setShowTouchAreas b pl s) as [[q s1]|] eqn:E; [|done]. intros [= <- <- <-].
    destruct (flag_frame _ _ _ _ _ E) as [Ep (Eh & En & _)].
    eexists. split; [constructor|]. eapply refines_frame; [exact Hr|done..| |].
    + symmetry. apply (flag_get _ _ _ _ _ E).
    + cbn. rewrite (setShowTouchAreas_advanced b pl s q s1 E). apply (rf_adv _ _ _ _ Hr).
  - cbn [exec_obs exec]. unfold bind at 1.
    destruct (setShowAdvancedUI b pl s) as [[q s1]|] eqn:E; [|done]. intros [= <- <- <-].
    destruct (flag_frame _ _ _ _ _ E) as [Ep (Eh & En & _)].
    eexists. split; [constructor|]. eapply refines_frame; [exact Hr|done..| |].
    + cbn. rewrite (setShowAdvancedUI_touch b pl s q s1 E). apply (rf_touch _ _ _ _ Hr).
    + symmetry. apply (flag_get _ _ _ _ _ E).
  - cbn [exec_obs exec]. destruct (setToolbox_run toolbox self pl s) as (s1 & E & _ & _ & Eh & En & _).
    rewrite (bind_Ok _ _ _ _ _ E). intros [= <- <- <-].
    eexists. split; [constructor|]. eapply refines_frame; [exact Hr|done..| |].
    + apply (rf_touch _ _ _ _ Hr).
    + apply (rf_adv _ _ _ _ Hr).
  - cbn [exec_obs exec]. rewrite (bind_Ok _ _ _ _ _ (createRootWindow_run parent s)).
    intros [= <- <- <-]. eexists. split; [constructor|]. by apply refines_insert_fresh.
  - by destruct (Hc f).
Qed.

(** C2: The code implements the contract: from a state related to an
    abstract one, every call (other than a write through the page-list
    reference) that returns is a step of the contract with the same
    observation (the pages, or the options instance) to a related state.
    So the pages are the default set in display order on every call, and
    [options()] returns one instance for the plugin's life. *)
Theorem refinement pl s a c o pl' s' :
  refines cfg pl s a -> (forall f, c <> CallEditPages f) ->
  exec_obs cfg c pl s = Ok ((o, pl'), s') ->
  exists a', astep cfg a c o a' /\ refines cfg pl' s' a'.
Proof. apply refinement_step. Qed.


(** Every observed call returns. *)
Lemma exec_obs_total c pl s : exists o pl' s', exec_obs cfg c pl s = Ok ((o, pl'), s').
Proof.
  destruct c as [| |b|b|toolbox self|parent|f]; cbn [exec_obs].
  - destruct (settingsPages_total cfg pl s) as (r & q & s1 & E).
    rewrite (bind_Ok _ _ _ _ _ E). by eexists _, _, _.
  - destruct (options_total pl s) as (r & q & s1 & E). rewrite (bind_Ok _ _ _ _ _ E).
    by eexists _, _, _.
  - total_via_exec s.
  - total_via_exec s.
  - total_via_exec s.
  - rewrite (bind_Ok _ _ _ _ _ (createRootWindow_run parent s)). by eexists _, _, _.
  - total_via_exec s.
Qed.

End Refinement.

(** ** Witness: the first [settingsPages] on a new plugin refines [as_pages] *)

Section Witnesses.
#[local] Existing Instance untranslated.

Lemma refinement_witness :
  refines debug_build plugin0 empty_store (mkAPlugin false None false true) /\
  (forall f, CallSettingsPages <> CallEditPages f) /\
  exists o pl' s', exec_obs debug_build CallSettingsPages plugin0 empty_store = Ok ((o, pl'), s') /\
    exists a', astep debug_build (mkAPlugin false None false true) CallSettingsPages o a' /\
               refines debug_build pl' s' a'.
Proof.
  pose proof empty_store_wf as Hs.
  pose proof (refines_init debug_build empty_store 1 2 Hs) as Hr.
  assert (Hc : forall f, CallSettingsPages <> CallEditPages f) by discriminate.
  split; [exact Hr|]. split; [exact Hc|].
  destruct (exec_obs debug_build CallSettingsPages plugin0 empty_store) as [[[o pl'] s']|u] eqn:E;
    [|vm_compute in E; discriminate].
  exists o, pl', s'. split; [reflexivity|].
  exact (refinement debug_build plugin0 empty_store _ CallSettingsPages o pl' s' Hr Hc E).
Defined.

End Witnesses.
