(* ===== verification/Sessions.v ===== *)
(** Whole client sessions against the contract of [Contract]: the spec's
    testable properties (section 8) over any number of calls.

    [run_obs] runs a list of calls on one plugin and collects what each
    one observed.  [astar] is the contract's multi-step relation, the
    reflexive-transitive closure of [astep] labelled by the calls and
    observations.  [session_refines] lifts the one-step simulation to
    sessions: a session of the code from a related state is a run of the
    contract with the same observations.  From the contract alone
    ([astar_pages], [astar_options]) it follows that, in any session
    from the plugin's construction, every [settingsPages()] observes the
    default pages in display order and every [options()] the same
    instance ([session_observations]). *)

From stdpp Require Import base gmap strings list numbers.
From S2P Require Import Spec2Rocq QtTypes Runtime PluginState SettingsPages Options UiFlags.
From S2P Require Import RootWindow Plugin Contract.

Section Sessions.
Context `{Translator}.
Variable cfg : BuildConfig.

(** [c1; c2; ...] with the observation of each call. *)
Fixpoint run_obs (cs : list Call) (pl : QGCCorePlugin) : M (list Obs * QGCCorePlugin) :=
  match cs with
  | [] => ret ([], pl)
  | c :: cs =>
      do r <- exec_obs cfg c pl;
      do r' <- run_obs cs r.2;
      ret (r.1 :: r'.1, r'.2)
  end.

(** Runs of the contract. *)
Inductive astar : APlugin -> list Call -> list Obs -> APlugin -> Prop :=
  | astar_nil a : astar a [] [] a
  | astar_cons a c o a1 cs os a' :
      astep cfg a c o a1 -> astar a1 cs os a' -> astar a (c :: cs) (o :: os) a'.

(** The calls of a session that the contract covers. *)
Definition no_edits (cs : list Call) : Prop := Forall (fun c => forall f, c <> CallEditPages f) cs.

End Sessions.

(** A call [exec_obs] passes to [exec]: the same run, observing nothing. *)
Ltac plain_obs s :=
  lazymatch goal with
  | |- context [exec ?cfg ?c ?q] =>
      destruct (exec_total cfg c q s) as (q1 & s1 & E); rewrite !(bind_Ok _ _ _ _ _ E);
      intros [= <- <- <-]; by split
  end.

Section SessionProofs.
Context `{Translator}.
Variable cfg : BuildConfig.

Lemma session_refines cs pl s a os pl' s' :
  refines cfg pl s a -> no_edits cs -> run_obs cfg cs pl s = Ok ((os, pl'), s') ->
  exists a', astar cfg a cs os a' /\ refines cfg pl' s' a'.
Proof.
  revert pl s a os. induction cs as [|c cs IH]; intros pl s a os Hr Hc Hrun; cbn [run_obs] in Hrun.
  - injection Hrun as <- <- <-. exists a. split; [constructor|done].
  - apply Forall_cons_1 in Hc as [Hc Hcs].
    destruct (exec_obs cfg c pl s) as [[[o pl1] s1]|u] eqn:E;
      [rewrite (bind_Ok _ _ _ _ _ E) in Hrun|by rewrite (bind_UB _ _ _ _ E) in Hrun].
    destruct (run_obs cfg cs pl1 s1) as [[[os1 pl2] s2]|u] eqn:E1;
      [rewrite (bind_Ok _ _ _ _ _ E1) in Hrun|by rewrite (bind_UB _ _ _ _ E1) in Hrun].
    injection Hrun as <- <- <-.
    destruct (refinement_step cfg pl s a c o pl1 s1 Hr Hc E) as (a1 & Hst & Hr1).
    destruct (IH pl1 s1 a1 os1 Hr1 Hcs E1) as (a' & Hstar & Hr').
    exists a'. split; [by econstructor|done].
Qed.

(** In the contract, every pages observation is the default set. *)
Lemma astar_pages a cs os a' ps :
  astar cfg a cs os a' -> ObsPages ps ∈ os -> ps = default_pages cfg.
Proof.
  induction 1 as [a|a c o a1 cs os a' Hst _ IH]; [by rewrite elem_of_nil|].
  rewrite elem_of_cons. intros [<-|Hin]; [|by apply IH]. by inversion Hst.
Qed.

(** In the contract, the options instance never changes once handed out. *)
Lemma astar_options_keep a cs os a' l :
  astar cfg a cs os a' -> a_options a = Some l -> a_options a' = Some l.
Proof.
  induction 1 as [a|a c o a1 cs os a' Hst _ IH]; [done|]. intros Ha. apply IH.
  inversion Hst; subst; cbn; congruence.
Qed.

(** In the contract, every options observation is the final instance. *)
Lemma astar_options a cs os a' l :
  astar cfg a cs os a' -> ObsOptions l ∈ os -> a_options a' = Some l.
Proof.
  induction 1 as [a|a c o a1 cs os a' Hst Hstar IH]; [by rewrite elem_of_nil|].
  rewrite elem_of_cons. intros [<-|Hin]; [|by apply IH].
  apply (astar_options_keep _ _ _ _ _ Hstar). by inversion Hst; subst.
Qed.

(** An observed call is the call itself, and only [createRootWindow]
    observes an engine: the fresh one at the next address. *)
Lemma exec_obs_exec c pl s o pl' s' :
  exec_obs cfg c pl s = Ok ((o, pl'), s') ->
  exec cfg c pl s = Ok (pl', s') /\
  (forall l, o = ObsEngine l ->
     l = st_next s /\ (exists e, st_heap s' !! l = Some (OEngine e)) /\
     st_next s' = (st_next s + 1)%N).
Proof.
  destruct c as [| |b|b|toolbox self|parent|f]; cbn [exec_obs].
  - cbn [exec]. destruct (settingsPages_total cfg pl s) as (r & q & s1 & E).
    rewrite !(bind_Ok _ _ _ _ _ E). intros Hrun. apply Ok_inj, pair_equal_spec in Hrun as [Ho <-].
    apply pair_equal_spec in Ho as [Ho <-]. split; [done|]. intros l ->. by case_match.
  - cbn [exec]. destruct (options_total pl s) as (r & q & s1 & E).
    rewrite !(bind_Ok _ _ _ _ _ E). intros Hrun. apply Ok_inj, pair_equal_spec in Hrun as [Ho <-].
    apply pair_equal_spec in Ho as [Ho <-]. split; [done|]. intros l ->. by case_match.
  - plain_obs s.
  - plain_obs s.
  - plain_obs s.
  - cbn [exec]. rewrite !(bind_Ok _ _ _ _ _ (createRootWindow_run parent s)). intros Hrun.
    apply Ok_inj, pair_equal_spec in Hrun as [[<- <-]%pair_equal_spec <-].
    split; [done|]. intros l [= <-]. split_and!; [done| |done].
    cbn [with_heap st_heap]. rewrite lookup_insert_eq. by eexists.
  - plain_obs s.
Qed.

(** C25: In any session from the plugin's construction (without writes
    through the page-list reference), every [settingsPages()] observes
    the default pages in display order, and all [options()] calls observe
    one and the same instance: the spec's testable properties 1 to 3 over
    any number of calls. *)
Theorem session_observations app toolbox s0 cs os pl' s' :
  store_wf s0 -> no_edits cs ->
  run_obs cfg cs (QGCCorePlugin_ctor app toolbox) s0 = Ok ((os, pl'), s') ->
  (forall ps, ObsPages ps ∈ os -> ps = default_pages cfg) /\
  (forall l1 l2, ObsOptions l1 ∈ os -> ObsOptions l2 ∈ os -> l1 = l2).
Proof.
  intros Hs0 Hc Hrun.
  destruct (session_refines cs _ _ _ os pl' s' (refines_init cfg s0 app toolbox Hs0) Hc Hrun)
    as (a' & Hstar & _).
  split; [intros ps; by apply astar_pages with (1 := Hstar)|].
  intros l1 l2 H1 H2. pose proof (astar_options _ _ _ _ _ Hstar H1).
  pose proof (astar_options _ _ _ _ _ Hstar H2). congruence.
Qed.

End SessionProofs.

(** ** Witness: pages and options asked for twice each *)

Section Witnesses.
#[local] Existing Instance untranslated.

Definition twice_calls : list Call :=
  [CallSettingsPages; CallOptions; CallSetShowAdvancedUI false; CallSettingsPages; CallOptions].

Lemma session_observations_witness :
  store_wf empty_store /\ no_edits twice_calls /\
  exists os pl' s', run_obs debug_build twice_calls (QGCCorePlugin_ctor 1 2) empty_store
                    = Ok ((os, pl'), s') /\
    (forall ps, ObsPages ps ∈ os -> ps = default_pages debug_build) /\
    (forall l1 l2, ObsOptions l1 ∈ os -> ObsOptions l2 ∈ os -> l1 = l2).
Proof.
  pose proof empty_store_wf as Hs.
  assert (Hc : no_edits twice_calls) by (repeat constructor; discriminate).
  split; [exact Hs|]. split; [exact Hc|].
  destruct (run_obs debug_build twice_calls (QGCCorePlugin_ctor 1 2) empty_store)
    as [[[os pl'] s']|u] eqn:E; [|vm_compute in E; discriminate].
  exists os, pl', s'. split; [reflexivity|].
  exact (session_observations debug_build 1 2 empty_store twice_calls os pl' s' Hs Hc E).
Defined.

End Witnesses.
