(* ===== verification/Engines.v ===== *)
(** The engines [createRootWindow] hands out over a whole session
    (QGCCorePlugin.cc, lines 219-227).

    [createRootWindow] returns a new [QQmlApplicationEngine*].  The
    plugin keeps no pointer to it and its destructor does not delete it:
    ownership passes to the caller, or to the engine's QObject parent.
    [obs_engines] lists the engines a session observed, in order.

    [session_engines] shows what a caller may rely on, for any session
    from the plugin's construction, including writes through the page
    list:
    - the engines are pairwise distinct;
    - none of them aliases an object that was live before the plugin;
    - all of them are still live engines when the plugin is destroyed
      afterwards, and the destruction has no undefined behaviour. *)

From stdpp Require Import base gmap strings list numbers.
From S2P Require Import Spec2Rocq QtTypes Runtime PluginState SettingsPages Options UiFlags.
From S2P Require Import RootWindow Plugin Members Contract Sessions.

(** The engines observed in a session, in order. *)
Definition obs_engines (os : list Obs) : list N :=
  omap (fun o => match o with ObsEngine l => Some l | _ => None end) os.

Section EngineProofs.
Context `{Translator}.
Variable cfg : BuildConfig.

(** Along a session from a reachable state, the heap only grows, and the
    engines observed are distinct live engines allocated during it. *)
Lemma session_engines_run s0 cs pl s os pl' s' :
  store_wf s0 -> reachable cfg s0 pl s -> run_obs cfg cs pl s = Ok ((os, pl'), s') ->
  reachable cfg s0 pl' s' /\ st_heap s ⊆ st_heap s' /\ (st_next s <= st_next s')%N /\
  NoDup (obs_engines os) /\
  forall l, l ∈ obs_engines os ->
    (st_next s <= l < st_next s')%N /\ exists e, st_heap s' !! l = Some (OEngine e).
Proof.
  intros Hs0. revert pl s os. induction cs as [|c cs IH]; intros pl s os Hr Hrun;
    cbn [run_obs] in Hrun.
  { injection Hrun as <- <- <-. split_and!; [done|done|lia|constructor|].
    intros l Hl. by apply elem_of_nil in Hl. }
  destruct (exec_obs cfg c pl s) as [[[o pl1] s1]|u] eqn:E;
    [rewrite (bind_Ok _ _ _ _ _ E) in Hrun|by rewrite (bind_UB _ _ _ _ E) in Hrun].
  destruct (run_obs cfg cs pl1 s1) as [[[os1 pl2] s2]|u] eqn:E1;
    [rewrite (bind_Ok _ _ _ _ _ E1) in Hrun|by rewrite (bind_UB _ _ _ _ E1) in Hrun].
  injection Hrun as <- <- <-. cbn [fst snd].
  destruct (exec_obs_exec cfg c pl s o pl1 s1 E) as [Ex Heng].
  destruct (exec_shape cfg s0 c pl s pl1 s1 (reachable_inv cfg s0 pl s Hs0 Hr) Ex)
    as (Hsub & Hnext & _).
  destruct (IH pl1 s1 os1 (reach_step _ _ _ _ _ _ _ Hr Ex) E1)
    as (Hr' & Hsub' & Hnext' & Hnd & Hl).
  split_and!; [done|by etrans|lia| |].
  - destruct o as [| |l|]; cbn; try done. destruct (Heng l eq_refl) as (-> & _ & Hn1).
    constructor; [|done]. intros Hin. destruct (Hl _ Hin) as [? _]. lia.
  - intros l Hin. destruct o as [| |l'|]; cbn in Hin; try (destruct (Hl l Hin) as [? ?]; split; [lia|done]).
    apply elem_of_cons in Hin as [->|Hin]; [|destruct (Hl l Hin) as [? ?]; split; [lia|done]].
    destruct (Heng l' eq_refl) as (-> & [e He] & Hn1). split; [lia|].
    exists e. by eapply lookup_weaken.
Qed.

(** C26: In any session from the plugin's construction, the engines
    [createRootWindow] returns are pairwise distinct and alias no object
    that was live before the plugin.  Destroying the plugin at the end of
    the session has no undefined behaviour, and every one of these
    engines is still live afterwards: the plugin never frees what it
    hands out. *)
Theorem session_engines app toolbox s0 cs os pl' s' :
  store_wf s0 -> run_obs cfg cs (QGCCorePlugin_ctor app toolbox) s0 = Ok ((os, pl'), s') ->
  NoDup (obs_engines os) /\
  (forall l, l ∈ obs_engines os -> st_heap s0 !! l = None) /\
  exists s'', QGCCorePlugin_dtor cfg pl' s' = Ok (tt, s'') /\
    forall l, l ∈ obs_engines os -> exists e, st_heap s'' !! l = Some (OEngine e).
Proof.
  intros Hs0 Hrun.
  destruct (session_engines_run s0 cs _ _ os pl' s' Hs0 (reach_ctor _ _ app toolbox) Hrun)
    as (Hr & _ & _ & Hnd & Hl).
  pose proof (reachable_inv cfg s0 pl' s' Hs0 Hr) as Hi.
  pose proof (mi_typed _ _ _ (reachable_members cfg s0 pl' s' Hs0 Hr)) as Ht.
  split_and!; [done| |].
  - intros l Hin. destruct (Hl l Hin) as [? _].
    destruct (st_heap s0 !! l) as [o|] eqn:Ho; [|done]. specialize (Hs0 _ _ Ho). simpl in Hs0. lia.
  - eexists. split; [apply p_dtor_run, (pi_priv _ _ _ _ Hi)|].
    intros l Hin. destruct (Hl l Hin) as [_ [e He]]. exists e. cbn [with_heap st_heap].
    rewrite lookup_delete_seq. case_decide as Hown; [|done].
    by destruct (owned_not_engine cfg _ _ l e Ht Hown).
Qed.

End EngineProofs.

(** ** Witness: two windows opened around the pages and options *)

Section Witnesses.
#[local] Existing Instance untranslated.

Definition window_calls : list Call :=
  [CallCreateRootWindow None; CallSettingsPages; CallOptions; CallCreateRootWindow (Some 1000%N)].

Lemma session_engines_witness :
  store_wf empty_store /\
  exists os pl' s', run_obs debug_build window_calls (QGCCorePlugin_ctor 1 2) empty_store
                    = Ok ((os, pl'), s') /\
    NoDup (obs_engines os) /\
    (forall l, l ∈ obs_engines os -> st_heap empty_store !! l = None) /\
    exists s'', QGCCorePlugin_dtor debug_build pl' s' = Ok (tt, s'') /\
      forall l, l ∈ obs_engines os -> exists e, st_heap s'' !! l = Some (OEngine e).
Proof.
  pose proof empty_store_wf as Hs. split; [exact Hs|].
  destruct (run_obs debug_build window_calls (QGCCorePlugin_ctor 1 2) empty_store)
    as [[[os pl'] s']|u] eqn:E; [|vm_compute in E; discriminate].
  exists os, pl', s'. split; [reflexivity|].
  exact (session_engines debug_build 1 2 empty_store window_calls os pl' s' Hs E).
Defined.

End Witnesses.
