(* ===== verification/Ordering.v ===== *)
(** The order of calls on one plugin (QGCCorePlugin.cc, lines 183-197
    against the rest of the file).

    The two setters [setShowTouchAreas] and [setShowAdvancedUI] touch
    their own member and the signal queue, and nothing else reads or
    writes either: [settingsPages()], [options()], [setToolbox],
    [createRootWindow] and writes through the page list neither read the
    flags nor emit.  So a flag set survives any sequence of such calls
    and can be moved past them without changing anything a client can
    see ([flag_set_delayed]): both orders end in the same plugin and the
    same store, with the flag at the value set and one notification
    exactly when that value differs from the one before.  The two setters among themselves commute only up to the
    order of their notifications ([setters_commute]): when both values
    change, QML receives [showTouchAreasChanged] and
    [showAdvancedUIChanged] in the order of the calls. *)

From stdpp Require Import base gmap strings list numbers.
From S2P Require Import Spec2Rocq QtTypes Runtime PluginState SettingsPages Options UiFlags.
From S2P Require Import RootWindow Plugin.

(** The calls that set neither flag. *)
Definition flag_free (c : Call) : bool :=
  match c with
  | CallSetShowTouchAreas _ | CallSetShowAdvancedUI _ => false
  | _ => true
  end.

(** The store after [emit sg]. *)
Definition push_signal (sg : Signal) (s : Store) : Store :=
  mkStore (st_heap s) (st_next s) (st_signals s ++ [sg]) (st_qmlTypes s) (st_ownership s)
          (st_joystickManager s) (st_debugMessageModel s).

(** What a setter does to the store: one signal when the value changes. *)
Definition notify_if (changed : bool) (sg : Signal) (s : Store) : Store :=
  if changed then push_signal sg s else s.

(** ** Both setters in closed form *)

Lemma setShowAdvancedUI_run b pl s :
  setShowAdvancedUI b pl s =
  Ok (set_showAdvancedUI b pl,
      notify_if (negb (Bool.eqb b (_showAdvancedUI pl))) (showAdvancedUIChanged b) s).
Proof.
  unfold setShowAdvancedUI, notify_if.
  by destruct pl as [??? t a]; destruct b, a.
Qed.

Lemma setShowTouchAreas_run b pl s :
  setShowTouchAreas b pl s =
  Ok (set_showTouchAreas b pl,
      notify_if (negb (Bool.eqb b (_showTouchAreas pl))) (showTouchAreasChanged b) s).
Proof.
  unfold setShowTouchAreas, notify_if.
  by destruct pl as [??? t a]; destruct b, t.
Qed.

(** ** The other calls ignore the flags and the signal queue *)

Lemma with_heap_push h n sg s :
  with_heap h n (push_signal sg s) = push_signal sg (with_heap h n s).
Proof. reflexivity. Qed.

Section Frame.
Context `{Translator}.
Variable cfg : BuildConfig.

Lemma settingsPages_p_push p s p' s' sg :
  settingsPages_p cfg p s = Ok (p', s') -> settingsPages_p cfg p (push_signal sg s) = Ok (p', push_signal sg s').
Proof.
  destruct (pGeneral p) as [l|] eqn:E.
  - rewrite !(settingsPages_p_Some _ _ _ l E). by intros [= -> ->].
  - rewrite !(settingsPages_p_None _ _ _ E). intros Hr.
    apply Ok_inj, pair_equal_spec in Hr as [<- <-]. reflexivity.
Qed.

Lemma options_p_push p s r p' s' sg :
  options_p p s = Ok ((r, p'), s') -> options_p p (push_signal sg s) = Ok ((r, p'), push_signal sg s').
Proof.
  destruct (defaultOptions p) as [l|] eqn:E.
  - rewrite !(options_p_Some _ _ l E). by intros [= -> -> ->].
  - rewrite !(options_p_None _ _ E). intros Hr.
    apply Ok_inj, pair_equal_spec in Hr as [Hr <-]. by apply pair_equal_spec in Hr as [<- <-].
Qed.

(** A call that sets no flag ignores the flags: run on a plugin with any
    other flag values, it makes the same changes, and it keeps the flags. *)
Lemma exec_flags c pl s pl' s' x y :
  flag_free c = true -> exec cfg c pl s = Ok (pl', s') ->
  exec cfg c (mkPlugin (_app pl) (_toolbox pl) (_p pl) x y) s
    = Ok (mkPlugin (_app pl') (_toolbox pl') (_p pl') x y, s') /\
  _showTouchAreas pl' = _showTouchAreas pl /\ _showAdvancedUI pl' = _showAdvancedUI pl.
Proof.
  destruct pl as [a t p x0 y0]; destruct c as [| |b|b|toolbox self|parent|f]; intros Hc Hr;
    try discriminate Hc; cbn [exec _app _toolbox _p] in *.
  - unfold settingsPages in *. cbv [bind ret] in *. cbn [_p] in *.
    destruct (settingsPages_p cfg p s) as [[p1 s1]|u]; [|discriminate]. by injection Hr as <- <-.
  - unfold options in *. cbv [bind ret] in *. cbn [_p] in *.
    destruct (options_p p s) as [[[r p1] s1]|u]; [|discriminate]. by injection Hr as <- <-.
  - unfold setToolbox in *. cbv [bind ret setObjectOwnership qmlRegister modify] in *.
    by injection Hr as <- <-.
  - cbv [bind ret] in *. rewrite createRootWindow_run in *. by injection Hr as <- <-.
  - cbv [ret] in *. by injection Hr as <- <-.
Qed.

(** A call that sets no flag neither reads nor writes the signal queue. *)
Lemma exec_push c pl s pl' s' sg :
  flag_free c = true -> exec cfg c pl s = Ok (pl', s') ->
  exec cfg c pl (push_signal sg s) = Ok (pl', push_signal sg s').
Proof.
  destruct c as [| |b|b|toolbox self|parent|f]; intros Hc Hr; try discriminate Hc; cbn [exec] in *.
  - unfold settingsPages in *. cbv [bind ret] in *. cbn [_p] in *.
    destruct (settingsPages_p cfg (_p pl) s) as [[p1 s1]|u] eqn:E; [|discriminate].
    rewrite (settingsPages_p_push _ _ _ _ sg E). by injection Hr as <- <-.
  - unfold options in *. cbv [bind ret] in *. cbn [_p] in *.
    destruct (options_p (_p pl) s) as [[[r p1] s1]|u] eqn:E; [|discriminate].
    rewrite (options_p_push _ _ _ _ _ sg E). by injection Hr as <- <-.
  - unfold setToolbox in *. cbv [bind ret setObjectOwnership qmlRegister modify] in *.
    by injection Hr as <- <-.
  - cbv [bind ret] in *. rewrite !createRootWindow_run in *. by injection Hr as <- <-.
  - cbv [ret] in *. by injection Hr as <- <-.
Qed.

(** A call that sets no flag emits nothing. *)
Lemma exec_flag_free_signals c pl s pl' s' :
  flag_free c = true -> exec cfg c pl s = Ok (pl', s') -> st_signals s' = st_signals s.
Proof.
  destruct c as [| |b|b|toolbox self|parent|f]; intros Hc Hr; try discriminate Hc; cbn [exec] in *.
  - unfold settingsPages in *. cbv [bind ret] in *.
    destruct (settingsPages_p cfg (_p pl) s) as [[p1 s1]|u] eqn:E; [|discriminate].
    injection Hr as _ <-. destruct (pGeneral (_p pl)) as [l|] eqn:G.
    + rewrite (settingsPages_p_Some _ _ _ l G) in E. by injection E as _ <-.
    + rewrite (settingsPages_p_None _ _ _ G) in E. by apply Ok_inj, pair_equal_spec in E as [_ <-].
  - unfold options in *. cbv [bind ret] in *.
    destruct (options_p (_p pl) s) as [[[r p1] s1]|u] eqn:E; [|discriminate].
    injection Hr as _ <-. destruct (defaultOptions (_p pl)) as [l|] eqn:G.
    + rewrite (options_p_Some _ _ l G) in E. by injection E as _ _ <-.
    + rewrite (options_p_None _ _ G) in E. by apply Ok_inj, pair_equal_spec in E as [_ <-].
  - unfold setToolbox in *. cbv [bind ret setObjectOwnership qmlRegister modify] in *.
    by injection Hr as _ <-.
  - cbv [bind ret] in *. rewrite createRootWindow_run in *. by injection Hr as _ <-.
  - cbv [ret] in *. by injection Hr as _ <-.
Qed.

Lemma run_calls_app cs1 cs2 pl s :
  run_calls cfg (cs1 ++ cs2) pl s = bind (run_calls cfg cs1 pl) (run_calls cfg cs2) s.
Proof.
  revert pl s. induction cs1 as [|c cs1 IH]; intros pl s; [done|].
  cbn [run_calls app]. rewrite bind_assoc. apply bind_ext. intros q s'. apply IH.
Qed.

(** Calls that set no flag run to their end, keep both flags and emit
    nothing. *)
Lemma run_flag_free cs pl s :
  Forall (fun c => flag_free c = true) cs ->
  exists pl1 s1, run_calls cfg cs pl s = Ok (pl1, s1) /\ _showTouchAreas pl1 = _showTouchAreas pl /\
    _showAdvancedUI pl1 = _showAdvancedUI pl /\ st_signals s1 = st_signals s.
Proof.
  revert pl s. induction cs as [|c cs IH]; intros pl s Hcs; [by eexists _, _|].
  apply Forall_cons_1 in Hcs as [Hc Hcs].
  destruct (exec_total cfg c pl s) as (pl' & s' & E).
  destruct (exec_flags c pl s pl' s' (_showTouchAreas pl) (_showAdvancedUI pl) Hc E) as (_ & Ht & Ha).
  destruct (IH pl' s' Hcs) as (pl1 & s1 & E1 & Ht1 & Ha1 & Hs1).
  exists pl1, s1. cbn [run_calls]. rewrite (bind_Ok _ _ _ _ _ E).
  split_and!; [exact E1|congruence|congruence|by rewrite Hs1, (exec_flag_free_signals c pl s pl' s' Hc E)].
Qed.

End Frame.

Lemma st_signals_notify_if (ch : bool) sg s :
  st_signals (notify_if (negb ch) sg s) = st_signals s ++ (if ch then [] else [sg]).
Proof. destruct ch; simpl; [by rewrite app_nil_r|done]. Qed.

(** ** Delaying a flag set past calls that set no flag *)

Section Delay.
Context `{Translator}.
Variable cfg : BuildConfig.
(** A call [setc] that updates the plugin by [upd] and signals [sg]
    when [ch] holds, where [upd] and [ch] commute with every call that
    sets no flag. *)
Variable setc : Call.
Variable upd : QGCCorePlugin -> QGCCorePlugin.
Variable ch : QGCCorePlugin -> bool.
Variable sg : Signal.
Hypothesis Hset : forall pl s, exec cfg setc pl s = Ok (upd pl, notify_if (ch pl) sg s).
Hypothesis Hframe : forall c pl s pl' s', flag_free c = true -> exec cfg c pl s = Ok (pl', s') ->
  exec cfg c (upd pl) s = Ok (upd pl', s') /\ ch pl' = ch pl.

Lemma exec_notify c pl s pl' s' b :
  flag_free c = true -> exec cfg c pl s = Ok (pl', s') ->
  exec cfg c pl (notify_if b sg s) = Ok (pl', notify_if b sg s').
Proof. destruct b; [apply exec_push|done]. Qed.

Lemma delay_run cs pl s :
  Forall (fun c => flag_free c = true) cs ->
  run_calls cfg (setc :: cs) pl s = run_calls cfg (cs ++ [setc]) pl s.
Proof.
  revert pl s. induction cs as [|c cs IH]; intros pl s Hcs; [done|].
  apply Forall_cons_1 in Hcs as [Hc Hcs].
  destruct (exec_total cfg c pl s) as (pl' & s' & E).
  destruct (Hframe c pl s pl' s' Hc E) as [Eu Hch].
  cbn [run_calls app]. rewrite (bind_Ok _ _ _ _ _ (Hset pl s)), (bind_Ok _ _ _ _ _ E).
  cbn [run_calls]. rewrite (bind_Ok _ _ _ _ _ (exec_notify c _ _ _ _ _ Hc Eu)), <- Hch.
  rewrite <- (IH pl' s' Hcs). cbn [run_calls]. by rewrite (bind_Ok _ _ _ _ _ (Hset pl' s')).
Qed.

(** Both orders end in the state the calls reach, updated by the set. *)
Lemma delay_outcome cs pl s pl1 s1 :
  Forall (fun c => flag_free c = true) cs -> run_calls cfg cs pl s = Ok (pl1, s1) -> ch pl1 = ch pl ->
  run_calls cfg (setc :: cs) pl s = Ok (upd pl1, notify_if (ch pl) sg s1) /\
  run_calls cfg (cs ++ [setc]) pl s = Ok (upd pl1, notify_if (ch pl) sg s1).
Proof.
  intros Hcs E Hch. rewrite delay_run by done. rewrite run_calls_app, (bind_Ok _ _ _ _ _ E).
  cbn [run_calls]. rewrite (bind_Ok _ _ _ _ _ (Hset pl1 s1)), Hch. by split.
Qed.

End Delay.

(** Two notifications commute up to the order of the queue, and only
    when at most one of them is sent. *)
Lemma notify_if_swap c1 c2 sg1 sg2 s :
  sg1 <> sg2 ->
  let s1 := notify_if c2 sg2 (notify_if c1 sg1 s) in
  let s2 := notify_if c1 sg1 (notify_if c2 sg2 s) in
  same_but_signals s1 s2 /\ st_signals s1 ≡ₚ st_signals s2 /\ (s1 = s2 <-> c1 = false \/ c2 = false).
Proof.
  intros Hne s1 s2. subst s1 s2. unfold same_but_signals.
  destruct c1, c2; cbn [notify_if push_signal st_heap st_next st_signals st_qmlTypes st_ownership];
    split_and!; try done; try tauto.
  - rewrite <- !app_assoc. apply Permutation_app_head, perm_swap.
  - split; [|by intros [?|?]]. intros Hs%(f_equal st_signals). cbn in Hs.
    rewrite <- !app_assoc in Hs. apply app_inv_head in Hs. by injection Hs.
Qed.

Section OrderingProofs.
Context `{Translator}.
Variable cfg : BuildConfig.

Lemma advanced_frame c pl s pl' s' b :
  flag_free c = true -> exec cfg c pl s = Ok (pl', s') ->
  exec cfg c (set_showAdvancedUI b pl) s = Ok (set_showAdvancedUI b pl', s') /\
  negb (Bool.eqb b (_showAdvancedUI pl')) = negb (Bool.eqb b (_showAdvancedUI pl)).
Proof.
  intros Hc E. destruct (exec_flags cfg c pl s pl' s' (_showTouchAreas pl) b Hc E) as (E' & Ht & Ha).
  unfold set_showAdvancedUI. rewrite Ht, Ha. by split.
Qed.

Lemma touch_frame c pl s pl' s' b :
  flag_free c = true -> exec cfg c pl s = Ok (pl', s') ->
  exec cfg c (set_showTouchAreas b pl) s = Ok (set_showTouchAreas b pl', s') /\
  negb (Bool.eqb b (_showTouchAreas pl')) = negb (Bool.eqb b (_showTouchAreas pl)).
Proof.
  intros Hc E. destruct (exec_flags cfg c pl s pl' s' b (_showAdvancedUI pl) Hc E) as (E' & Ht & Ha).
  unfold set_showTouchAreas. rewrite Ht, Ha. by split.
Qed.

(** C27: A flag set survives, and can be moved past, any sequence of
    calls that set no flag.  [setShowAdvancedUI(b)] followed by such
    calls, and the same calls followed by [setShowAdvancedUI(b)], both
    run to the end in the same plugin and the same store, signal queue
    included; there the flag is [b], the other flag is as before, and the
    only signal emitted is one [showAdvancedUIChanged(b)], exactly when
    [b] differs from the flag's value before the set.  Likewise for
    [setShowTouchAreas(b)]. *)
Theorem flag_set_delayed b cs pl s :
  Forall (fun c => flag_free c = true) cs ->
  (exists pl' s',
    run_calls cfg (CallSetShowAdvancedUI b :: cs) pl s = Ok (pl', s') /\
    run_calls cfg (cs ++ [CallSetShowAdvancedUI b]) pl s = Ok (pl', s') /\
    _showAdvancedUI pl' = b /\ _showTouchAreas pl' = _showTouchAreas pl /\
    st_signals s' = st_signals s ++
      (if Bool.eqb b (_showAdvancedUI pl) then [] else [showAdvancedUIChanged b])) /\
  (exists pl' s',
    run_calls cfg (CallSetShowTouchAreas b :: cs) pl s = Ok (pl', s') /\
    run_calls cfg (cs ++ [CallSetShowTouchAreas b]) pl s = Ok (pl', s') /\
    _showTouchAreas pl' = b /\ _showAdvancedUI pl' = _showAdvancedUI pl /\
    st_signals s' = st_signals s ++
      (if Bool.eqb b (_showTouchAreas pl) then [] else [showTouchAreasChanged b])).
Proof.
  intros Hcs. destruct (run_flag_free cfg cs pl s Hcs) as (pl1 & s1 & E & Ht & Ha & Hsg). split.
  - destruct (delay_outcome cfg (CallSetShowAdvancedUI b) (set_showAdvancedUI b) (fun q => negb (Bool.eqb b (_showAdvancedUI q)))
      (showAdvancedUIChanged b) (setShowAdvancedUI_run b)
      (fun c q s q' s' Hc E => advanced_frame c q s q' s' b Hc E) cs pl s pl1 s1 Hcs E)
      as [E1 E2]; [by rewrite Ha|].
    eexists _, _. split_and!; [exact E1|exact E2|done|exact Ht|].
    by rewrite st_signals_notify_if, Hsg.
  - destruct (delay_outcome cfg (CallSetShowTouchAreas b) (set_showTouchAreas b) (fun q => negb (Bool.eqb b (_showTouchAreas q)))
      (showTouchAreasChanged b) (setShowTouchAreas_run b)
      (fun c q s q' s' Hc E => touch_frame c q s q' s' b Hc E) cs pl s pl1 s1 Hcs E)
      as [E1 E2]; [by rewrite Ht|].
    eexists _, _. split_and!; [exact E1|exact E2|done|exact Ha|].
    by rewrite st_signals_notify_if, Hsg.
Qed.

(** C28: [setShowTouchAreas(b1)] and [setShowAdvancedUI(b2)] commute up
    to the order of their notifications: both orders end in the same
    plugin, which holds [b1] and [b2], and in stores that differ at most
    in the signal queue, whose two versions are permutations of each
    other.  After [setShowTouchAreas(b1); setShowAdvancedUI(b2)] the
    queue gains [showTouchAreasChanged(b1)] if that value changed, then
    [showAdvancedUIChanged(b2)] if that one changed.  The stores of the
    two orders are equal exactly when one of the two values does not
    change: when both change, the notifications arrive in the order of
    the calls. *)
Theorem setters_commute b1 b2 pl s :
  exists pl' s1 s2,
    run_calls cfg [CallSetShowTouchAreas b1; CallSetShowAdvancedUI b2] pl s = Ok (pl', s1) /\
    run_calls cfg [CallSetShowAdvancedUI b2; CallSetShowTouchAreas b1] pl s = Ok (pl', s2) /\
    _showTouchAreas pl' = b1 /\ _showAdvancedUI pl' = b2 /\
    s1 = notify_if (negb (Bool.eqb b2 (_showAdvancedUI pl))) (showAdvancedUIChanged b2)
           (notify_if (negb (Bool.eqb b1 (_showTouchAreas pl))) (showTouchAreasChanged b1) s) /\
    same_but_signals s1 s2 /\ st_signals s1 ≡ₚ st_signals s2 /\
    (s1 = s2 <-> b1 = _showTouchAreas pl \/ b2 = _showAdvancedUI pl).
Proof.
  cbn [run_calls exec].
  rewrite (bind_Ok _ _ _ _ _ (setShowTouchAreas_run b1 pl s)), (bind_Ok _ _ _ _ _ (setShowAdvancedUI_run _ _ _)).
  rewrite (bind_Ok _ _ _ _ _ (setShowAdvancedUI_run b2 pl s)), (bind_Ok _ _ _ _ _ (setShowTouchAreas_run _ _ _)).
  eexists _, _, _. split; [reflexivity|]. split; [reflexivity|].
  destruct (notify_if_swap (negb (Bool.eqb b1 (_showTouchAreas pl))) (negb (Bool.eqb b2 (_showAdvancedUI pl)))
              (showTouchAreasChanged b1) (showAdvancedUIChanged b2) s) as (Hs & Hp & Heq); [done|].
  split_and!; [done|done|reflexivity|exact Hs|exact Hp|]. rewrite Heq, !negb_false_iff, !Bool.eqb_true_iff. tauto.
Qed.

End OrderingProofs.

(** ** Witness: hiding the advanced UI around a session's other calls *)

Section Witnesses.
#[local] Existing Instance untranslated.

Definition frame_calls : list Call :=
  [CallSettingsPages; CallOptions; CallEditPages (fun l => l); CallCreateRootWindow None;
   CallSetToolbox 3 4].

Lemma flag_set_delayed_witness :
  Forall (fun c => flag_free c = true) frame_calls /\
  (exists pl' s',
    run_calls debug_build (CallSetShowAdvancedUI false :: frame_calls) plugin0 empty_store = Ok (pl', s') /\
    run_calls debug_build (frame_calls ++ [CallSetShowAdvancedUI false]) plugin0 empty_store = Ok (pl', s') /\
    _showAdvancedUI pl' = false /\ _showTouchAreas pl' = _showTouchAreas plugin0 /\
    st_signals s' = st_signals empty_store ++
      (if Bool.eqb false (_showAdvancedUI plugin0) then [] else [showAdvancedUIChanged false])) /\
  (exists pl' s',
    run_calls debug_build (CallSetShowTouchAreas false :: frame_calls) plugin0 empty_store = Ok (pl', s') /\
    run_calls debug_build (frame_calls ++ [CallSetShowTouchAreas false]) plugin0 empty_store = Ok (pl', s') /\
    _showTouchAreas pl' = false /\ _showAdvancedUI pl' = _showAdvancedUI plugin0 /\
    st_signals s' = st_signals empty_store ++
      (if Bool.eqb false (_showTouchAreas plugin0) then [] else [showTouchAreasChanged false])).
Proof.
  assert (Hf : Forall (fun c => flag_free c = true) frame_calls) by (repeat constructor).
  split; [exact Hf|].
  exact (flag_set_delayed debug_build false frame_calls plugin0 empty_store Hf).
Defined.

End Witnesses.
